(** * crWRL: the crawl engine and its buffer pipeline, verified

    A shallow embedding of [crwlr_async.py] and [functions/buffer_handler.py].
    Python values are modelled as follows: [str] as [string], [int] as [Z],
    [list] as [list], [set] as stdpp's [gset], [None]-able values as [option],
    a call that may raise as a value of [outcome]. Whatever the program
    receives from outside (the HTTP response, the file system, the database,
    the interrupt signal) enters the model as an explicit argument. *)

From stdpp Require Import gmap strings list.
From Stdlib Require Import ZArith Ascii.


(** The result of a Python call: it returns, or it raises. *)
Inductive outcome (A : Type) : Type :=
| Returned (a : A)
| Raised (e : string).
Arguments Returned {A} a.
Arguments Raised {A} e.

(** * functions/buffer_handler.py *)

Module BufferHandler.

(** The two dictionaries built by [add_url_record] and
    [add_subdomain_record]; the ['type'] key is the constructor. The float
    [response_time_ms] is kept as a number of milliseconds. *)
Inductive Record_ : Type :=
| url_record (session_id : Z) (url normalized_url domain path : string)
    (depth : Z) (status_code : option Z) (content_type : option string)
    (response_time_ms : option Z) (error_message : option string)
| subdomain_record (session_id : Z) (subdomain base_domain : string).

Definition is_url (r : Record_) : bool :=
  match r with url_record _ _ _ _ _ _ _ _ _ _ => true | _ => false end.

Definition is_subdomain (r : Record_) : bool :=
  match r with subdomain_record _ _ _ => true | _ => false end.

(** What [self.buffer_file] holds on disk. [Torn] is a file that [open(.., 'w')]
    truncated and [json.dump] did not finish writing. *)
Inductive mirror : Type :=
| Absent
| Holds (records : list Record_)
| Torn.

(** How one [open] + [json.dump] of the mirror went. *)
Inductive write_event : Type :=
| WriteOk
| OpenRaises
| DumpRaises.

(** The [db_manager] the handler is given: the two calls it makes on it,
    over the state [DB] of the sink. *)
Class DbManager (DB : Type) : Type := {
  log_url_batch : Z -> list Record_ -> DB -> DB * outcome Z;
  log_subdomain : Z -> string -> string -> DB -> DB * outcome Z
}.

(** The handler object together with the two things it owns outside the
    process: the mirror file and the sink. *)
Record CrawlBufferHandler (DB : Type) : Type := mkHandler {
  session_id : Z;
  buffer_limit : Z;
  buffer : list Record_;
  flush_count : nat;
  total_flushed : nat;
  buffer_file : mirror;
  db_manager : DB
}.
Arguments mkHandler {DB}.
Arguments session_id {DB}.
Arguments buffer_limit {DB}.
Arguments buffer {DB}.
Arguments flush_count {DB}.
Arguments total_flushed {DB}.
Arguments buffer_file {DB}.
Arguments db_manager {DB}.

Section Handler.
Context {DB : Type} `{DbManager DB}.

Definition set_buffer (b : list Record_) (h : CrawlBufferHandler DB) :=
  mkHandler (session_id h) (buffer_limit h) b (flush_count h)
    (total_flushed h) (buffer_file h) (db_manager h).

Definition set_buffer_file (f : mirror) (h : CrawlBufferHandler DB) :=
  mkHandler (session_id h) (buffer_limit h) (buffer h) (flush_count h)
    (total_flushed h) f (db_manager h).

Definition set_db_manager (d : DB) (h : CrawlBufferHandler DB) :=
  mkHandler (session_id h) (buffer_limit h) (buffer h) (flush_count h)
    (total_flushed h) (buffer_file h) d.

Definition count_flush (n : nat) (h : CrawlBufferHandler DB) :=
  mkHandler (session_id h) (buffer_limit h) (buffer h) (S (flush_count h))
    (total_flushed h + n) (buffer_file h) (db_manager h).

(** [_write_buffer_to_json]: the file is overwritten with the whole buffer;
    an exception is logged and swallowed. *)
Definition _write_buffer_to_json (w : write_event) (h : CrawlBufferHandler DB)
  : CrawlBufferHandler DB :=
  match w with
  | WriteOk => set_buffer_file (Holds (buffer h)) h
  | OpenRaises => h
  | DumpRaises => set_buffer_file Torn h
  end.

Definition add_record (w : write_event) (record : Record_)
    (h : CrawlBufferHandler DB) : CrawlBufferHandler DB :=
  _write_buffer_to_json w (set_buffer (buffer h ++ [record]) h).

Definition add_url_record (w : write_event) (url normalized_url domain path : string)
    (depth : Z) (status_code : option Z) (content_type : option string)
    (response_time_ms : option Z) (error_message : option string)
    (h : CrawlBufferHandler DB) : CrawlBufferHandler DB :=
  add_record w
    (url_record (session_id h) url normalized_url domain path depth status_code
       content_type response_time_ms error_message) h.

Definition add_subdomain_record (w : write_event) (subdomain base_domain : string)
    (h : CrawlBufferHandler DB) : CrawlBufferHandler DB :=
  add_record w (subdomain_record (session_id h) subdomain base_domain) h.

(** Appending a run of records, each with its own mirror write. *)
Definition add_records (rs : list (write_event * Record_)) (h : CrawlBufferHandler DB)
  : CrawlBufferHandler DB :=
  foldl (λ h wr, add_record wr.1 wr.2 h) h rs.

Definition should_flush (h : CrawlBufferHandler DB) : bool :=
  bool_decide (buffer_limit h ≤ Z.of_nat (length (buffer h)))%Z.

(** The loop over [subdomain_records] of [_insert_to_database]. *)
Fixpoint log_subdomains (records : list Record_) (d : DB) : DB * outcome unit :=
  match records with
  | [] => (d, Returned tt)
  | subdomain_record sid sub base :: rest =>
      match log_subdomain sid sub base d with
      | (d', Returned _) => log_subdomains rest d'
      | (d', Raised e) => (d', Raised e)
      end
  | url_record _ _ _ _ _ _ _ _ _ _ :: rest => log_subdomains rest d
  end.

Definition _insert_to_database (sid : Z) (data : list Record_) (d : DB)
  : DB * outcome unit :=
  let url_records := filter (λ r, is_url r = true) data in
  let after_urls :=
    match url_records with
    | [] => (d, Returned 0%Z)
    | _ :: _ => log_url_batch sid url_records d
    end in
  match after_urls with
  | (d', Raised e) => (d', Raised e)
  | (d', Returned _) =>
      log_subdomains (filter (λ r, is_subdomain r = true) data) d'
  end.

(** [flush]. [rm_ok] tells whether [os.remove] went through when it is
    called. Everything from the insert to the counters is inside the [try];
    the [except] branch extends the buffer by [data_to_flush]. *)
Definition flush (rm_ok : bool) (h : CrawlBufferHandler DB)
  : CrawlBufferHandler DB * nat :=
  match buffer h with
  | [] => (h, 0)
  | _ :: _ =>
      let data_to_flush := buffer h in
      match _insert_to_database (session_id h) data_to_flush (db_manager h) with
      | (d', Raised _) =>
          let h1 := set_db_manager d' h in
          (set_buffer (buffer h1 ++ data_to_flush) h1, 0)
      | (d', Returned _) =>
          let h1 := set_buffer [] (set_db_manager d' h) in
          match buffer_file h1 with
          | Absent => (count_flush (length data_to_flush) h1, length data_to_flush)
          | _ =>
              if rm_ok
              then (count_flush (length data_to_flush) (set_buffer_file Absent h1),
                    length data_to_flush)
              else (set_buffer (buffer h1 ++ data_to_flush) h1, 0)
          end
      end
  end.

Definition flush_if_needed (rm_ok : bool) (h : CrawlBufferHandler DB)
  : CrawlBufferHandler DB * nat :=
  if should_flush h then flush rm_ok h else (h, 0).

(** [final_flush]: [rm_ok] serves the [os.remove] inside [flush], [rm_ok']
    the one of the clean-up, which is outside any [try]. *)
Definition final_flush (rm_ok rm_ok' : bool) (h : CrawlBufferHandler DB)
  : CrawlBufferHandler DB * outcome nat :=
  let '(h1, remaining) := flush rm_ok h in
  match buffer_file h1 with
  | Absent => (h1, Returned remaining)
  | _ =>
      if rm_ok'
      then (set_buffer_file Absent h1, Returned remaining)
      else (h1, Raised "OSError")
  end.

End Handler.

(** Two sinks to run the handler on: one that stores what it is given, one
    that raises on every call. *)
Definition storing_sink : DbManager (list Record_) := {|
  log_url_batch := λ _ rs d, (d ++ rs, Returned (Z.of_nat (length rs)));
  log_subdomain := λ sid sub base d,
    (d ++ [subdomain_record sid sub base], Returned (Z.of_nat (length d)))
|}.

Definition failing_sink : DbManager unit := {|
  log_url_batch := λ _ _ d, (d, Raised "sqlite3.OperationalError");
  log_subdomain := λ _ _ _ d, (d, Raised "sqlite3.OperationalError")
|}.

(** A handler of session 7 with one URL record in its buffer and on disk,
    over the sink that raises. *)
Definition a_record : Record_ :=
  url_record 7 "https://a.test/" "https://a.test/" "a.test" "/" 0
    (Some 200%Z) (Some "text/html") (Some 12%Z) None.

Definition failing_handler : CrawlBufferHandler unit :=
  mkHandler 7 100 [a_record] 0 0 (Holds [a_record]) tt.

Definition fresh_handler : CrawlBufferHandler unit :=
  mkHandler 7 100 [] 0 0 Absent tt.

End BufferHandler.

(** * urllib.parse, as far as [normalize_url] uses it

    [urlparse] and [urlunparse] belong to the Python standard library. The
    definitions below follow [urllib/parse.py] of CPython 3.11 function by
    function, on strings of 8-bit characters: [find] followed by two slices
    is [break], the text before the first match and the text from it on.
    Left out are the cache and the two checks of the network location
    (brackets of an IPv6 host, NFKC normalisation) by which [urlsplit] raises
    [ValueError]; both look at the [netloc] alone. *)

Module Url.

Definition code (c : ascii) : nat := nat_of_ascii c.

Definition is_c0_control_or_space (c : ascii) : bool := code c <=? 32.

(** [_UNSAFE_URL_BYTES_TO_REMOVE]: tab, carriage return, line feed. *)
Definition is_unsafe_byte (c : ascii) : bool :=
  (code c =? 9) || (code c =? 13) || (code c =? 10).

Definition is_upper (c : ascii) : bool := (65 <=? code c) && (code c <=? 90).
Definition is_lower (c : ascii) : bool := (97 <=? code c) && (code c <=? 122).
Definition is_digit (c : ascii) : bool := (48 <=? code c) && (code c <=? 57).
Definition is_alpha (c : ascii) : bool := is_upper c || is_lower c.

(** [c in scheme_chars] *)
Definition is_scheme_char (c : ascii) : bool :=
  is_alpha c || is_digit c || (code c =? 43) || (code c =? 45) || (code c =? 46).

Definition lower_char (c : ascii) : ascii :=
  if is_upper c then ascii_of_nat (code c + 32) else c.

Definition lower (s : list ascii) : list ascii := map lower_char s.

Definition is_char (d c : ascii) : bool := Ascii.eqb d c.

(** [c in '/?#'] *)
Definition is_netloc_delim (c : ascii) : bool :=
  is_char "/" c || is_char "?" c || is_char "#" c.

Arguments is_char : simpl never.
Arguments is_netloc_delim : simpl never.
Arguments is_unsafe_byte : simpl never.
Arguments is_c0_control_or_space : simpl never.
Arguments is_scheme_char : simpl never.
Arguments is_alpha : simpl never.
Arguments lower_char : simpl never.

Fixpoint lstrip (p : ascii → bool) (s : list ascii) : list ascii :=
  match s with
  | [] => []
  | c :: s' => if p c then lstrip p s' else s
  end.

(** [s.replace(b, "")] for every unsafe [b] *)
Fixpoint remove_unsafe (s : list ascii) : list ascii :=
  match s with
  | [] => []
  | c :: s' => if is_unsafe_byte c then remove_unsafe s' else c :: remove_unsafe s'
  end.

(** The text before the first character that satisfies [p], and the text
    from that character on. *)
Fixpoint break (p : ascii → bool) (s : list ascii) : list ascii * list ascii :=
  match s with
  | [] => ([], [])
  | c :: s' =>
      if p c then ([], s)
      else let '(a, b) := break p s' in (c :: a, b)
  end.

(** [if d in url: url, x = url.split(d, 1)] *)
Definition split_once (d : ascii) (url : list ascii) : list ascii * list ascii :=
  match break (is_char d) url with
  | (a, _ :: b) => (a, b)
  | (_, []) => (url, [])
  end.

(** The scheme test of [urlsplit]: [i = url.find(':')], [i > 0], the first
    character a letter, every character of [url[:i]] a scheme character. *)
Definition split_scheme (url : list ascii) : list ascii * list ascii :=
  match break (is_char ":") url with
  | (c :: pre, _ :: rest) =>
      if is_alpha c && forallb is_scheme_char (c :: pre)
      then (lower (c :: pre), rest)
      else ([], url)
  | _ => ([], url)
  end.

(** [url[:2] == '//'] *)
Definition starts_with_2slash (url : list ascii) : bool :=
  match url with
  | c1 :: c2 :: _ => is_char "/" c1 && is_char "/" c2
  | _ => false
  end.

(** [if url[:2] == '//': netloc, url = _splitnetloc(url, 2)] *)
Definition _splitnetloc (url : list ascii) : list ascii * list ascii :=
  if starts_with_2slash url then break is_netloc_delim (drop 2 url) else ([], url).

Record SplitResult : Type := mkSplit {
  s_scheme : list ascii;
  s_netloc : list ascii;
  s_path : list ascii;
  s_query : list ascii;
  s_fragment : list ascii
}.

Definition urlsplit (url : list ascii) : SplitResult :=
  let url := remove_unsafe (lstrip is_c0_control_or_space url) in
  let '(scheme, url) := split_scheme url in
  let '(netloc, url) := _splitnetloc url in
  let '(url, fragment) := split_once "#" url in
  let '(url, query) := split_once "?" url in
  mkSplit scheme netloc url query fragment.

(** [url[:rfind('/') + 1]] and the last segment after it. *)
Fixpoint last_segment (url : list ascii) : list ascii * list ascii :=
  match url with
  | [] => ([], [])
  | c :: r =>
      let '(d, s) := last_segment r in
      match d with
      | [] => if is_char "/" c then ([c], s) else ([], c :: s)
      | _ :: _ => (c :: d, s)
      end
  end.

(** [_splitparams]: the first [';'] of the last segment splits the path;
    [urlparse] calls it only when the path holds a [';']. *)
Definition _splitparams (url : list ascii) : list ascii * list ascii :=
  let '(d, s) := last_segment url in
  match break (is_char ";") s with
  | (a, _ :: params) => (d ++ a, params)
  | (_, []) => (url, [])
  end.

Definition uses_netloc : list string :=
  [""; "ftp"; "http"; "gopher"; "nntp"; "telnet"; "imap"; "wais"; "file";
   "mms"; "https"; "shttp"; "snews"; "prospero"; "rtsp"; "rtspu"; "rsync";
   "svn"; "svn+ssh"; "sftp"; "nfs"; "git"; "git+ssh"; "ws"; "wss"]%string.

Definition uses_params : list string :=
  [""; "ftp"; "hdl"; "prospero"; "http"; "imap"; "https"; "shttp"; "rtsp";
   "rtspu"; "sip"; "sips"; "mms"; "sftp"; "tel"]%string.

Definition scheme_in (scheme : list ascii) (l : list string) : bool :=
  bool_decide (String.string_of_list_ascii scheme ∈ l).

Record ParseChars : Type := mkParseChars {
  c_scheme : list ascii;
  c_netloc : list ascii;
  c_path : list ascii;
  c_params : list ascii;
  c_query : list ascii;
  c_fragment : list ascii
}.

Definition urlparse_chars (url : list ascii) : ParseChars :=
  let r := urlsplit url in
  let '(url, params) :=
    if scheme_in (s_scheme r) uses_params && existsb (is_char ";") (s_path r)
    then _splitparams (s_path r)
    else (s_path r, []) in
  mkParseChars (s_scheme r) (s_netloc r) url params (s_query r) (s_fragment r).

Definition nonempty (s : list ascii) : bool :=
  match s with [] => false | _ :: _ => true end.

Definition urlunsplit (r : SplitResult) : list ascii :=
  let url := s_path r in
  let url :=
    if nonempty (s_netloc r)
       || (nonempty (s_scheme r) && scheme_in (s_scheme r) uses_netloc
           && negb (starts_with_2slash url))
    then
      let url :=
        match url with
        | c :: _ => if is_char "/" c then url else "/"%char :: url
        | [] => url
        end in
      "/"%char :: "/"%char :: s_netloc r ++ url
    else url in
  let url := if nonempty (s_scheme r) then s_scheme r ++ ":"%char :: url else url in
  let url := if nonempty (s_query r) then url ++ "?"%char :: s_query r else url in
  let url := if nonempty (s_fragment r) then url ++ "#"%char :: s_fragment r else url in
  url.

Definition urlunparse_chars (p : ParseChars) : list ascii :=
  let url :=
    if nonempty (c_params p) then c_path p ++ ";"%char :: c_params p else c_path p in
  urlunsplit (mkSplit (c_scheme p) (c_netloc p) url (c_query p) (c_fragment p)).

(** ** What a parse result looks like *)








(** The text is empty or begins with a character that satisfies [P]. *)
Definition starts_in (P : ascii → Prop) (s : list ascii) : Prop :=
  match s with
  | [] => True
  | c :: _ => P c
  end.


Definition not_char (d c : ascii) : Prop := is_char d c = false.








(** The named tuple [ParseResult], on [str]. *)
Record ParseResult : Type := mkParse {
  scheme : string;
  netloc : string;
  path : string;
  params : string;
  query : string;
  fragment : string
}.

Definition of_chars (P : ParseChars) : ParseResult :=
  mkParse (String.string_of_list_ascii (c_scheme P))
    (String.string_of_list_ascii (c_netloc P))
    (String.string_of_list_ascii (c_path P))
    (String.string_of_list_ascii (c_params P))
    (String.string_of_list_ascii (c_query P))
    (String.string_of_list_ascii (c_fragment P)).

Definition to_chars (p : ParseResult) : ParseChars :=
  mkParseChars (String.list_ascii_of_string (scheme p))
    (String.list_ascii_of_string (netloc p))
    (String.list_ascii_of_string (path p))
    (String.list_ascii_of_string (params p))
    (String.list_ascii_of_string (query p))
    (String.list_ascii_of_string (fragment p)).

Definition urlparse (url : string) : ParseResult :=
  of_chars (urlparse_chars (String.list_ascii_of_string url)).

Definition urlunparse (p : ParseResult) : string :=
  String.string_of_list_ascii (urlunparse_chars (to_chars p)).



End Url.

(** * crwlr_async.py: the URL classifier *)

(** [normalize_url]: parse, and put back together with an empty fragment. *)
Definition normalize_url (url : string) : string :=
  let parsed := Url.urlparse url in
  let normalized :=
    Url.urlunparse
      (Url.mkParse (Url.scheme parsed) (Url.netloc parsed) (Url.path parsed)
         (Url.params parsed) (Url.query parsed) "") in
  normalized.

(** What [tldextract.extract] returns. The library and its public-suffix
    list are outside the repository: the classifier takes [extract] as an
    argument. *)
Record ExtractResult : Type := mkExtract {
  subdomain : string;
  domain : string;
  suffix : string
}.

(** The labels of a host name, and the host name of its labels. *)
Fixpoint split_labels (cur : list ascii) (s : list ascii) : list (list ascii) :=
  match s with
  | [] => [rev cur]
  | c :: s' =>
      if Url.is_char "." c then rev cur :: split_labels [] s'
      else split_labels (c :: cur) s'
  end.

Fixpoint join_labels (ls : list (list ascii)) : list ascii :=
  match ls with
  | [] => []
  | [l] => l
  | l :: ls' => l ++ "."%char :: join_labels ls'
  end.

(** A stand-in for [tldextract.extract] that takes the last label for the
    public suffix; it serves to run the classifier on concrete URLs. *)
Definition last_label_extract (url : string) : ExtractResult :=
  let host := String.list_ascii_of_string (Url.netloc (Url.urlparse url)) in
  match rev (split_labels [] host) with
  | suf :: dom :: sub =>
      mkExtract (String.string_of_list_ascii (join_labels (rev sub)))
        (String.string_of_list_ascii dom) (String.string_of_list_ascii suf)
  | [dom] => mkExtract "" (String.string_of_list_ascii dom) ""
  | [] => mkExtract "" "" ""
  end.

(** JSON values as [json.loads] builds them; a [dict] keeps the order of its
    members. *)
#[local] Set Warnings "-register-all".
Inductive json : Type :=
| JNull
| JBool (b : bool)
| JNumber (n : Z)
| JString (s : string)
| JList (items : list json)
| JDict (members : list (string * json)).

(** [value.startswith(('http://', 'https://', '/'))] *)
Definition looks_like_url (value : string) : bool :=
  String.prefix "http://" value || String.prefix "https://" value
  || String.prefix "/" value.

Section Classifier.

Variable extract : string → ExtractResult.
(** [re.search(pattern, text)] found a match *)
Variable re_search : string → string → bool.
(** [urllib.parse.urljoin] *)
Variable urljoin : string → string → string.

Definition is_same_domain (url1 url2 : string) : bool :=
  let ext1 := extract url1 in
  let ext2 := extract url2 in
  bool_decide (domain ext1 = domain ext2) && bool_decide (suffix ext1 = suffix ext2).

Definition get_subdomain (url : string) : option string :=
  let ext := extract url in
  if bool_decide (subdomain ext ≠ "") && bool_decide (subdomain ext ≠ "www")
  then Some (subdomain ext +:+ "." +:+ domain ext +:+ "." +:+ suffix ext)
  else None.

(** A pattern given as [None] or as the empty string is falsy. *)
Definition truthy (pattern : option string) : option string :=
  match pattern with
  | Some "" => None
  | p => p
  end.

Definition should_exclude (url : string) (exclude_paths exclude_subdomains : option string)
  : bool :=
  let by_path :=
    match truthy exclude_paths with
    | Some pat => re_search pat (Url.path (Url.urlparse url))
    | None => false
    end in
  if by_path then true
  else
    match truthy exclude_subdomains with
    | Some pat =>
        match get_subdomain url with
        | Some sub => re_search pat sub
        | None => false
        end
    | None => false
    end.

(** [extract_urls_from_json]. In a [dict] a string value is tested and a
    [dict] or [list] value is walked; in a [list] every item is walked, and
    the walk of anything that is neither a [dict] nor a [list] is empty. *)
Fixpoint extract_urls_from_json (data : json) (base_url : string) : list string :=
  match data with
  | JDict members =>
      (fix over_items (ms : list (string * json)) : list string :=
         match ms with
         | [] => []
         | (key, value) :: ms' =>
             match value with
             | JString s =>
                 if looks_like_url s
                 then [normalize_url (urljoin base_url s)]
                 else []
             | JDict _ | JList _ => extract_urls_from_json value base_url
             | _ => []
             end ++ over_items ms'
         end) members
  | JList items =>
      (fix over_list (l : list json) : list string :=
         match l with
         | [] => []
         | item :: l' => extract_urls_from_json item base_url ++ over_list l'
         end) items
  | _ => []
  end.

End Classifier.

(** The walk the specification describes: every string of the tree, whether
    it is a member of a [dict], an item of a [list], or the value itself. *)
Fixpoint spec_json_candidates (urljoin : string → string → string)
    (data : json) (base_url : string) : list string :=
  match data with
  | JString s =>
      if looks_like_url s then [normalize_url (urljoin base_url s)] else []
  | JDict members =>
      (fix over_items (ms : list (string * json)) : list string :=
         match ms with
         | [] => []
         | (_, value) :: ms' =>
             spec_json_candidates urljoin value base_url ++ over_items ms'
         end) members
  | JList items =>
      (fix over_list (l : list json) : list string :=
         match l with
         | [] => []
         | item :: l' => spec_json_candidates urljoin item base_url ++ over_list l'
         end) items
  | _ => []
  end.

(** * crwlr_async.py: the fetch worker and the scheduler

    A coroutine runs without interruption between two [await]s that suspend.
    [crawl_url] is cut where it suspends for the network: [crawl_url_enter]
    is the part before the rate-limit sleep, [crawl_url_finish] the part that
    runs once the request has an answer. The answer, and the interrupt
    signal, come from outside. *)

Module Engine.
Import BufferHandler.

(** The exceptions [crawl_url] tells apart. *)
Inductive exn : Type :=
| TimeoutError
| ClientError (msg : string)
| JSONDecodeError (msg : string)
| OtherException (msg : string).

(** What the worker reads from an [aiohttp] response. [json_body] is what
    [await response.json()] does, [anchors] what [await response.text()]
    followed by the scan for [<a href=..>] gives: the [href] values in
    document order. *)
Record Response : Type := mkResponse {
  status : Z;
  response_url : string;
  content_type_header : option string;
  request_time_ms : Z;
  json_body : exn + json;
  anchors : exn + list string
}.

(** What [session.get] does within the time-out. *)
Inductive fetch : Type :=
| Got (response : Response)
| Failed (e : exn).

Record Args : Type := mkArgs {
  max_depth : Z;
  workers : Z;
  exclude_paths : option string;
  exclude_subdomains : option string
}.

(** The module-level sets and flag, the handler and the progress bar. *)
Record Shared (DB : Type) : Type := mkShared {
  visited_urls : gset string;
  found_subdomains : gset string;
  found_paths : gset string;
  shutdown_flag : bool;
  buffer_handler : option (CrawlBufferHandler DB);
  pbar : nat
}.
Arguments mkShared {DB}.
Arguments visited_urls {DB}.
Arguments found_subdomains {DB}.
Arguments found_paths {DB}.
Arguments shutdown_flag {DB}.
Arguments buffer_handler {DB}.
Arguments pbar {DB}.

Definition str_lower (s : string) : string :=
  String.string_of_list_ascii (Url.lower (String.list_ascii_of_string s)).

(** [needle in hay] on [str] *)
Definition contains (needle hay : string) : bool :=
  match String.index 0 needle hay with
  | Some _ => true
  | None => false
  end.

(** [str(e)[:n]] *)
Definition truncate (n : nat) (s : string) : string := String.substring 0 n s.

Definition exn_text (e : exn) : string :=
  match e with
  | TimeoutError => ""
  | ClientError msg | JSONDecodeError msg | OtherException msg => msg
  end.

Section Worker.
Context {DB : Type} `{DbManager DB}.

Variable extract : string → ExtractResult.
Variable re_search : string → string → bool.
Variable urljoin : string → string → string.

Definition set_visited (v : gset string) (sh : Shared DB) :=
  mkShared v (found_subdomains sh) (found_paths sh) (shutdown_flag sh)
    (buffer_handler sh) (pbar sh).
Definition set_subdomains (s : gset string) (sh : Shared DB) :=
  mkShared (visited_urls sh) s (found_paths sh) (shutdown_flag sh)
    (buffer_handler sh) (pbar sh).
Definition set_paths (p : gset string) (sh : Shared DB) :=
  mkShared (visited_urls sh) (found_subdomains sh) p (shutdown_flag sh)
    (buffer_handler sh) (pbar sh).
Definition set_flag (b : bool) (sh : Shared DB) :=
  mkShared (visited_urls sh) (found_subdomains sh) (found_paths sh) b
    (buffer_handler sh) (pbar sh).
Definition set_handler (h : option (CrawlBufferHandler DB)) (sh : Shared DB) :=
  mkShared (visited_urls sh) (found_subdomains sh) (found_paths sh)
    (shutdown_flag sh) h (pbar sh).
Definition pbar_update (n : nat) (sh : Shared DB) :=
  mkShared (visited_urls sh) (found_subdomains sh) (found_paths sh)
    (shutdown_flag sh) (buffer_handler sh) (pbar sh + n).

(** [if handler: handler.add_url_record(...)] *)
Definition log_url (w : write_event) (url : string) (depth : Z)
    (status_code : option Z) (content_type : option string)
    (response_time_ms : option Z) (error_message : option string)
    (sh : Shared DB) : Shared DB :=
  match buffer_handler sh with
  | Some handler =>
      let parsed := Url.urlparse url in
      set_handler
        (Some (add_url_record w url (normalize_url url) (Url.netloc parsed)
                 (Url.path parsed) depth status_code content_type
                 response_time_ms error_message handler)) sh
  | None => sh
  end.

(** [if subdomain: found_subdomains.add(subdomain)] *)
Definition note_subdomain (url : string) (sh : Shared DB) : Shared DB :=
  match get_subdomain extract url with
  | Some sub => set_subdomains ({[sub]} ∪ found_subdomains sh) sh
  | None => sh
  end.

(** The part of [crawl_url] up to the rate-limit sleep: [None] when it
    returns [[]] at once. *)
Definition crawl_url_enter (url : string) (sh : Shared DB) : option (Shared DB) :=
  if shutdown_flag sh then None
  else if bool_decide (url ∈ visited_urls sh) then None
  else Some (set_visited ({[url]} ∪ visited_urls sh) sh).

(** The loop over [soup.find_all('a', href=True)] *)
Definition html_candidates (flag : bool) (url : string) (hrefs : list string)
  : list string :=
  if flag then [] else map (λ href, normalize_url (urljoin url href)) hrefs.

(** The loop [for normalized in potential_urls] *)
Fixpoint process_candidates (args : Args) (base_domain : string) (depth : Z)
    (potential_urls : list string) (sh : Shared DB) (new_urls : list (string * Z))
  : Shared DB * list (string * Z) :=
  match potential_urls with
  | [] => (sh, new_urls)
  | normalized :: rest =>
      if shutdown_flag sh then (sh, new_urls)
      else
        let parsed := Url.urlparse normalized in
        if negb (bool_decide (Url.scheme parsed ∈ ["http"; "https"]))
        then process_candidates args base_domain depth rest sh new_urls
        else if should_exclude extract re_search normalized (exclude_paths args)
                  (exclude_subdomains args)
        then process_candidates args base_domain depth rest sh new_urls
        else if is_same_domain extract normalized base_domain
        then
          let sh := note_subdomain normalized sh in
          let new_urls :=
            if bool_decide (depth < max_depth args)%Z
            then new_urls ++ [(normalized, (depth + 1)%Z)]
            else new_urls in
          process_candidates args base_domain depth rest sh new_urls
        else process_candidates args base_domain depth rest sh new_urls
  end.

(** The three [except] clauses of [crawl_url] *)
Definition on_exception (w : write_event) (url : string) (depth : Z) (e : exn)
    (sh : Shared DB) : Shared DB :=
  match e with
  | TimeoutError =>
      log_url w url depth None None None (Some "Request timeout") sh
  | ClientError msg =>
      log_url w url depth None None None
        (Some ("Client error: " +:+ truncate 200 msg)) sh
  | _ =>
      log_url w url depth None None None
        (Some ("Error: " +:+ truncate 200 (exn_text e))) sh
  end.

(** The body of the [try] once the response is there: the state it leaves
    behind, and either [new_urls] or the exception that left it. *)
Definition on_response (w : write_event) (args : Args) (base_domain url : string)
    (depth : Z) (response : Response) (sh : Shared DB)
  : Shared DB * (exn + list (string * Z)) :=
  let sh :=
    log_url w url depth (Some (status response)) (content_type_header response)
      (Some (request_time_ms response)) None sh in
  if bool_decide (status response = 200%Z)
  then
    let final_url := response_url response in
    let sh :=
      if is_same_domain extract url base_domain
      then set_paths ({[url]} ∪ found_paths sh) sh else sh in
    let sh :=
      if bool_decide (final_url ≠ url) && is_same_domain extract final_url base_domain
      then set_paths ({[final_url]} ∪ found_paths sh) sh else sh in
    let sh := note_subdomain final_url sh in
    let content_type := str_lower (default "" (content_type_header response)) in
    let potential_urls : exn + list string :=
      if contains "application/json" content_type
      then
        match json_body response with
        | inr data => inr (extract_urls_from_json urljoin data url)
        | inl (JSONDecodeError _) => inr []
        | inl e => inl e
        end
      else if contains "text/html" content_type
      then
        match anchors response with
        | inr hrefs => inr (html_candidates (shutdown_flag sh) url hrefs)
        | inl e => inl e
        end
      else inr [] in
    match potential_urls with
    | inr candidates =>
        let '(sh, new_urls) :=
          process_candidates args base_domain depth candidates sh [] in
        (sh, inr new_urls)
    | inl e => (sh, inl e)
    end
  else (sh, inr []).

(** [crawl_url] from the answer of the request on. [w] serves the mirror
    write of the record of the response, [w'] the one of an [except] clause. *)
Definition crawl_url_finish (w w' : write_event) (args : Args)
    (base_domain url : string) (depth : Z) (answer : fetch) (sh : Shared DB)
  : Shared DB * list (string * Z) :=
  let '(sh, new_urls) :=
    match answer with
    | Got response =>
        match on_response w args base_domain url depth response sh with
        | (sh, inr new_urls) => (sh, new_urls)
        | (sh, inl e) => (on_exception w' url depth e sh, [])
        end
    | Failed e => (on_exception w' url depth e sh, [])
    end in
  (pbar_update 1 sh, new_urls).

(** ** The scheduler loop of [main] *)

(** A task of the batch handed to [asyncio.gather]. *)
Inductive Task : Type :=
| Running (url : string) (depth : Z)
| Done (result : list (string * Z)).

Record Crawl : Type := mkCrawl {
  shared : Shared DB;
  urls_to_visit : list (string * Z);
  tasks : option (list Task);
  finished : bool
}.

(** [for _ in range(batch_size): if urls_to_visit and not shutdown_flag:
    batch.append(urls_to_visit.pop(0))] *)
Fixpoint draw (n : nat) (flag : bool) (pending : list (string * Z))
  : list (string * Z) * list (string * Z) :=
  match n with
  | 0 => ([], pending)
  | S n' =>
      match pending with
      | entry :: rest =>
          if negb flag
          then let '(batch, pending') := draw n' flag rest in (entry :: batch, pending')
          else draw n' flag pending
      | [] => ([], [])
      end
  end.

(** The tasks of a batch start in order and run up to their first sleep. *)
Fixpoint start_tasks (batch : list (string * Z)) (sh : Shared DB)
  : Shared DB * list Task :=
  match batch with
  | [] => (sh, [])
  | (url, depth) :: rest =>
      match crawl_url_enter url sh with
      | Some sh' =>
          let '(sh'', ts) := start_tasks rest sh' in (sh'', Running url depth :: ts)
      | None =>
          let '(sh'', ts) := start_tasks rest sh in (sh'', Done [] :: ts)
      end
  end.

Definition is_done (t : Task) : bool :=
  match t with Done _ => true | Running _ _ => false end.

Definition result_of (t : Task) : list (string * Z) :=
  match t with Done r => r | Running _ _ => [] end.

(** [new_unique_urls = [u for u in result if u[0] not in visited_urls]] *)
Definition new_unique_urls (visited : gset string) (result : list (string * Z))
  : list (string * Z) :=
  filter (λ u, u.1 ∉ visited) result.

(** The loop [for result in results] *)
Fixpoint collect (visited : gset string) (results : list (list (string * Z)))
    (pending : list (string * Z)) : list (string * Z) :=
  match results with
  | [] => pending
  | result :: rest =>
      match result with
      | [] => collect visited rest pending
      | _ :: _ => collect visited rest (pending ++ new_unique_urls visited result)
      end
  end.

(** What can happen next. *)
Inductive event : Type :=
| Sigint
| Iterate
| Complete (i : nat) (w w' : write_event) (answer : fetch)
| Gathered
| Monitor (rm_ok : bool).

(** [while urls_to_visit and not shutdown_flag]: the test, the draw of the
    batch and the start of its tasks. *)
Definition iterate (args : Args) (c : Crawl) : Crawl :=
  match tasks c, finished c with
  | None, false =>
      if bool_decide (urls_to_visit c ≠ []) && negb (shutdown_flag (shared c))
      then
        let batch_size :=
          Z.min (workers args * 2) (Z.of_nat (length (urls_to_visit c))) in
        let '(batch, pending) :=
          draw (Z.to_nat batch_size) (shutdown_flag (shared c)) (urls_to_visit c) in
        let '(sh, ts) := start_tasks batch (shared c) in
        mkCrawl sh pending (Some ts) false
      else mkCrawl (shared c) (urls_to_visit c) None true
  | _, _ => c
  end.

Definition complete (args : Args) (base_url : string) (i : nat)
    (w w' : write_event) (answer : fetch) (c : Crawl) : Crawl :=
  match tasks c with
  | Some ts =>
      match ts !! i with
      | Some (Running url depth) =>
          let '(sh, new_urls) :=
            crawl_url_finish w w' args base_url url depth answer (shared c) in
          mkCrawl sh (urls_to_visit c) (Some (<[i := Done new_urls]> ts)) (finished c)
      | _ => c
      end
  | None => c
  end.

(** [asyncio.gather] on the tasks returns once every one of them is
    done; the results come in the order of the batch. *)
Definition gathered (c : Crawl) : Crawl :=
  match tasks c with
  | Some ts =>
      if forallb is_done ts
      then
        mkCrawl (shared c)
          (collect (visited_urls (shared c)) (map result_of ts) (urls_to_visit c))
          None (finished c)
      else c
  | None => c
  end.

(** [buffer_monitor_task] wakes up: [handler.flush_if_needed()] *)
Definition monitor (rm_ok : bool) (c : Crawl) : Crawl :=
  match buffer_handler (shared c) with
  | Some handler =>
      mkCrawl (set_handler (Some (flush_if_needed rm_ok handler).1) (shared c))
        (urls_to_visit c) (tasks c) (finished c)
  | None => c
  end.

Definition step (args : Args) (base_url : string) (ev : event) (c : Crawl) : Crawl :=
  match ev with
  | Sigint => mkCrawl (set_flag true (shared c)) (urls_to_visit c) (tasks c) (finished c)
  | Iterate => iterate args c
  | Complete i w w' answer => complete args base_url i w w' answer c
  | Gathered => gathered c
  | Monitor rm_ok => monitor rm_ok c
  end.

Definition run (args : Args) (base_url : string) (evs : list event) (c : Crawl) : Crawl :=
  foldl (λ c ev, step args base_url ev c) c evs.

(** [urls_to_visit = [(base_url, 0)]], the sets empty, the flag down. *)
Definition start (handler : option (CrawlBufferHandler DB)) (base_url : string) : Crawl :=
  mkCrawl (mkShared ∅ ∅ ∅ false handler 0) [(base_url, 0%Z)] None false.

(** [status = 'interrupted' if shutdown_flag else 'completed'] *)
Definition session_status (c : Crawl) : string :=
  if shutdown_flag (shared c) then "interrupted" else "completed".

(** ** What the theorems speak about *)

(** The records the handler holds in memory. *)
Definition logged (sh : Shared DB) : list Record_ :=
  match buffer_handler sh with
  | Some handler => buffer handler
  | None => []
  end.

(** The fetches that are issued and have no answer yet. *)
Definition running (c : Crawl) : list (string * Z) :=
  match tasks c with
  | Some ts =>
      omap (λ t, match t with Running url depth => Some (url, depth) | Done _ => None end) ts
  | None => []
  end.

Definition within_depth (args : Args) (entry : string * Z) : Prop :=
  (entry.2 ≤ max_depth args)%Z.

Definition task_within_depth (args : Args) (t : Task) : Prop :=
  match t with
  | Running _ depth => (depth ≤ max_depth args)%Z
  | Done result => Forall (within_depth args) result
  end.

Definition frontier_within_depth (args : Args) (c : Crawl) : Prop :=
  Forall (within_depth args) (urls_to_visit c)
  ∧ ∀ ts, tasks c = Some ts → Forall (task_within_depth args) ts.

(** [sh'] differs from [sh] in the sets of subdomains and paths at most. *)
Definition same_core (sh sh' : Shared DB) : Prop :=
  visited_urls sh' = visited_urls sh
  ∧ shutdown_flag sh' = shutdown_flag sh
  ∧ buffer_handler sh' = buffer_handler sh
  ∧ pbar sh' = pbar sh.

(** The record that [log_url] builds. *)
Definition record_of (h : CrawlBufferHandler DB) (url : string) (depth : Z)
    (status_code : option Z) (content_type : option string)
    (response_time_ms : option Z) (error_message : option string) : Record_ :=
  url_record (session_id h) url (normalize_url url) (Url.netloc (Url.urlparse url))
    (Url.path (Url.urlparse url)) depth status_code content_type response_time_ms
    error_message.

(** The error message of each [except] clause. *)
Definition error_text (e : exn) : string :=
  match e with
  | TimeoutError => "Request timeout"
  | ClientError msg => "Client error: " +:+ truncate 200 msg
  | _ => "Error: " +:+ truncate 200 (exn_text e)
  end.

End Worker.

(** A site to run the engine on: no exclusion pattern ever matches, and
    every link is absolute, so that [urljoin] returns it as it is. *)
Definition never_matches (pattern text : string) : bool := false.
Definition join_absolute (base url : string) : string := url.

Definition args_depth_1 : Args := mkArgs 1 2 None None.

(** A page that links to two pages of the site. *)
Definition home_page : Response :=
  mkResponse 200 "https://a.test" (Some "text/html; charset=utf-8") 12
    (inl (ClientError "ContentTypeError"))
    (inr ["https://a.test/a"; "https://a.test/b"]).

(** A page whose headers arrive with status 200 and whose body does not
    arrive within the time-out. *)
Definition stalled_page : Response :=
  mkResponse 200 "https://a.test" (Some "text/html") 12
    (inl TimeoutError) (inl TimeoutError).

Definition a_test : string := "https://a.test".

(** The shared state a session with a handler starts from. *)
Definition idle : Shared unit := mkShared ∅ ∅ ∅ false (Some fresh_handler) 0.

(** A session in which the interrupt arrives while the first fetch is in
    flight. *)
Definition interrupted_in_flight : @Crawl unit :=
  run (H := failing_sink) last_label_extract never_matches join_absolute
    args_depth_1 a_test [Iterate; Sigint] (start (Some fresh_handler) a_test).

End Engine.

(** * Sequences of calls on the buffer handler *)

Module HandlerRun.
Import BufferHandler.

(** [get_stats] *)
Record Stats : Type := mkStats {
  st_current_buffer_size : nat;
  st_buffer_limit : Z;
  st_flush_count : nat;
  st_total_flushed : nat;
  st_session_id : Z
}.

(** The calls the crawler makes on its handler while a session runs: the
    worker appends, the monitor polls, the shutdown path flushes. Each call
    carries what the file system answers to it. *)
Inductive call : Type :=
| Append (w : write_event) (r : Record_)
| Flush (rm_ok : bool)
| FlushIfNeeded (rm_ok : bool).

Definition is_append (c : call) : bool :=
  match c with Append _ _ => true | _ => false end.

(** A call during which [json.dump] stops half-way. *)
Definition tears (c : call) : bool :=
  match c with Append DumpRaises _ => true | _ => false end.

Section Run.
Context {DB : Type} `{DbManager DB}.

Definition get_stats (h : CrawlBufferHandler DB) : Stats :=
  mkStats (length (buffer h)) (buffer_limit h) (flush_count h)
    (total_flushed h) (session_id h).

(** The records the handler answers for: those it counted as flushed and
    those it still buffers. *)
Definition accounted (h : CrawlBufferHandler DB) : nat :=
  st_total_flushed (get_stats h) + st_current_buffer_size (get_stats h).

Definition apply_call (c : call) (h : CrawlBufferHandler DB)
  : CrawlBufferHandler DB :=
  match c with
  | Append w r => add_record w r h
  | Flush rm_ok => (flush rm_ok h).1
  | FlushIfNeeded rm_ok => (flush_if_needed rm_ok h).1
  end.

Definition apply_calls (cs : list call) (h : CrawlBufferHandler DB)
  : CrawlBufferHandler DB :=
  foldl (λ h c, apply_call c h) h cs.

Definition appended (cs : list call) : nat :=
  length (filter (λ c, is_append c = true) cs).

(** The sink never raises. *)
Definition sink_returns : Prop :=
  (∀ sid rs d, ∃ d' n, log_url_batch sid rs d = (d', Returned n)) ∧
  (∀ sid sub base d, ∃ d' n, log_subdomain sid sub base d = (d', Returned n)).

(** The mirror, when it exists, holds the first records of the buffer. *)
Definition mirror_is_prefix (h : CrawlBufferHandler DB) : Prop :=
  match buffer_file h with
  | Absent => True
  | Holds m => m `prefix_of` buffer h
  | Torn => False
  end.

End Run.

(** A sink that writes down the calls made on it and always returns. *)
Inductive sink_call : Type :=
| UrlBatch (session_id : Z) (urls : list Record_)
| Subdomain (session_id : Z) (subdomain base_domain : string).

Definition tracing_sink : DbManager (list sink_call) := {|
  log_url_batch := λ sid urls calls,
    (calls ++ [UrlBatch sid urls], Returned (Z.of_nat (length urls)));
  log_subdomain := λ sid sub base calls,
    (calls ++ [Subdomain sid sub base], Returned 1%Z)
|}.

(** The call that a subdomain record gives rise to. *)
Definition subdomain_call (r : Record_) : option sink_call :=
  match r with
  | subdomain_record sid sub base => Some (Subdomain sid sub base)
  | url_record _ _ _ _ _ _ _ _ _ _ => None
  end.

(** The calls that a batch of records gives rise to. *)
Definition calls_of (session_id : Z) (data : list Record_) : list sink_call :=
  match filter (λ r, is_url r = true) data with
  | [] => []
  | url_records => [UrlBatch session_id url_records]
  end ++ omap subdomain_call data.

(** A handler of session 7 over the sink that stores, with a limit of two
    records, and a subdomain record. *)
Definition storing_handler : CrawlBufferHandler (list Record_) :=
  mkHandler 7 2 [] 0 0 Absent [].

Definition a_subdomain : Record_ := subdomain_record 7 "api.a.test" "a.test".

(** The same handler with two records buffered, the first of them on disk. *)
Definition loaded_handler : CrawlBufferHandler (list Record_) :=
  mkHandler 7 2 [a_record; a_subdomain] 0 0 (Holds [a_record]) [].

(** Three appends, whose mirror writes go each its own way, a poll and a
    flush. *)
Definition some_calls : list call :=
  [Append WriteOk a_record; Append OpenRaises a_subdomain; FlushIfNeeded false;
   Append DumpRaises a_record; Flush true].

End HandlerRun.

(** * Whole sessions: what their theorems speak about *)

Module Session.
Import BufferHandler Engine HandlerRun.

Section Session.
Context {DB : Type}.
Variable extract : string → ExtractResult.
Variable re_search : string → string → bool.

(** The URLs whose fetch has started and has not come back. *)
Definition in_flight (c : @Crawl DB) : list string := (running c).*1.

(** Nothing was taken out of the three sets, and the flag was not lowered. *)
Definition never_shrinks (sh sh' : Shared DB) : Prop :=
  visited_urls sh ⊆ visited_urls sh'
  ∧ found_subdomains sh ⊆ found_subdomains sh'
  ∧ found_paths sh ⊆ found_paths sh'
  ∧ (shutdown_flag sh = true → shutdown_flag sh' = true).

(** Every URL of [visited_urls] stands for one fetch: one that came back and
    moved the progress bar, or one that is in flight. *)
Definition fetched_once (c : @Crawl DB) : Prop :=
  NoDup (in_flight c)
  ∧ (∀ url, url ∈ in_flight c → url ∈ visited_urls (shared c))
  ∧ size (visited_urls (shared c)) = pbar (shared c) + length (in_flight c).

(** The three tests of the loop over [potential_urls] that a candidate has
    to pass. *)
Definition followed (args : Args) (base_domain normalized : string) : bool :=
  bool_decide (Url.scheme (Url.urlparse normalized) ∈ ["http"; "https"])
  && negb (should_exclude extract re_search normalized (exclude_paths args)
             (exclude_subdomains args))
  && is_same_domain extract normalized base_domain.

(** The children that a list of candidates gives at a depth. *)
Definition children_of (args : Args) (base_domain : string) (depth : Z)
    (candidates : list string) : list (string * Z) :=
  if bool_decide (depth < max_depth args)%Z
  then (λ normalized, (normalized, (depth + 1)%Z))
         <$> filter (λ normalized, followed args base_domain normalized = true) candidates
  else [].




Variable urljoin : string → string → string.




(** The session is over, or will be once the loop tests again. *)
Definition over (c : @Crawl DB) : Prop :=
  finished c = true →
  tasks c = None ∧ (shutdown_flag (shared c) = true ∨ urls_to_visit c = []).

(** [n] rounds of the loop of [main] in which every task of the batch comes
    back at once. *)
Definition rounds (n : nat) : list event := concat (replicate n [Iterate; Gathered]).

End Session.

(** A session on the site of [home_page], run to its end: the home page
    comes back, then its two links, one with a time-out and one with a body
    that stalls. *)
Definition whole_session : list event :=
  [Iterate; Complete 0 WriteOk WriteOk (Got home_page); Gathered;
   Iterate; Complete 0 WriteOk WriteOk (Failed TimeoutError);
   Complete 1 WriteOk WriteOk (Got stalled_page); Gathered; Iterate].

(** The same session at the moment its two links are in flight. *)
Definition links_in_flight : list event :=
  [Iterate; Complete 0 WriteOk WriteOk (Got home_page); Gathered; Iterate].

Definition no_workers : Args := mkArgs 1 0 None None.

End Session.

(** Every string of the JSON value is the value of a member of an object:
    none is an item of an array, and the value is not itself a string. *)
Fixpoint strings_are_members (data : json) : bool :=
  match data with
  | JString _ => false
  | JList items =>
      (fix over_list (l : list json) : bool :=
         match l with
         | [] => true
         | item :: l' => strings_are_members item && over_list l'
         end) items
  | JDict members =>
      (fix over_items (ms : list (string * json)) : bool :=
         match ms with
         | [] => true
         | (_, value) :: ms' =>
             match value with
             | JString _ => true
             | _ => strings_are_members value
             end && over_items ms'
         end) members
  | _ => true
  end.

(** * crwlr_async.py: the custom request headers

    [parse_custom_headers] builds a [dict] from the [-H] flags and from the
    lines of the headers file. Characters are the code points below 256, as
    for URLs. What [open] and the reading of the file give comes from
    outside; [sys.exit(1)] is the result [None]. *)

Module Headers.

(** [str.isspace] on the code points below 256 *)
Definition is_space (c : ascii) : bool :=
  ((9 <=? Url.code c) && (Url.code c <=? 13))
  || ((28 <=? Url.code c) && (Url.code c <=? 32))
  || (Url.code c =? 133) || (Url.code c =? 160).
Arguments is_space : simpl never.

(** [s.strip()] *)
Definition strip_chars (s : list ascii) : list ascii :=
  rev (Url.lstrip is_space (rev (Url.lstrip is_space s))).

Definition strip (s : string) : string :=
  String.string_of_list_ascii (strip_chars (String.list_ascii_of_string s)).

(** [':' in header] *)
Definition has_colon (header : string) : bool :=
  existsb (Url.is_char ":") (String.list_ascii_of_string header).

(** [name, value = header.split(':', 1)], both stripped *)
Definition split_header (header : string) : string * string :=
  let '(name, value) := Url.split_once ":" (String.list_ascii_of_string header) in
  (String.string_of_list_ascii (strip_chars name),
   String.string_of_list_ascii (strip_chars value)).

(** [custom_headers[name.strip()] = value.strip()] *)
Definition set_header (header : string) (custom_headers : gmap string string)
  : gmap string string :=
  <[(split_header header).1 := (split_header header).2]> custom_headers.

(** The loop over [args.headers] *)
Definition from_flags (headers : list string) (custom_headers : gmap string string)
  : gmap string string :=
  foldl (λ custom_headers header,
           if has_colon header then set_header header custom_headers
           else custom_headers)
    custom_headers headers.

(** [line and not line.startswith('#') and ':' in line] *)
Definition is_header_line (line : string) : bool :=
  negb (bool_decide (line = "")) && negb (String.prefix "#" line) && has_colon line.

(** The loop over the lines of the file *)
Definition from_file (lines : list string) (custom_headers : gmap string string)
  : gmap string string :=
  foldl (λ custom_headers line,
           let line := strip line in
           if is_header_line line then set_header line custom_headers
           else custom_headers)
    custom_headers lines.

Record HeaderArgs : Type := mkHeaderArgs {
  headers : option (list string);
  headers_file : option string
}.

(** What reading the headers file gives. *)
Inductive file_read : Type :=
| Lines (lines : list string)
| FileNotFoundError
| OtherError.

Definition parse_custom_headers (args : HeaderArgs) (file : file_read)
  : option (gmap string string) :=
  let custom_headers :=
    match headers args with
    | Some (header :: rest) => from_flags (header :: rest) ∅
    | _ => ∅
    end in
  match headers_file args with
  | None | Some "" => Some custom_headers
  | Some _ =>
      match file with
      | Lines lines => Some (from_file lines custom_headers)
      | _ => None
      end
  end.

(** A header name or value as the dictionary holds it. *)
Definition stripped (s : string) : Prop := strip s = s.

(** Every entry of the dictionary has a stripped name without a colon and a
    stripped value. *)
Definition well_formed (custom_headers : gmap string string) : Prop :=
  map_Forall (λ name value, stripped name ∧ stripped value ∧ has_colon name = false)
    custom_headers.

End Headers.

(** * DataBase/query_builder.py and DataBase/database_manager.py: the insert
    statements

    The builder returns the text of a statement and its parameters. A call
    that raises [ValueError] is [Raised]. *)

Module QueryBuilder.

Inductive ConflictAction : Type := IGNORE | REPLACE | ABORT | ROLLBACK | FAIL.

(** [on_conflict.value] *)
Definition conflict_value (action : ConflictAction) : string :=
  match action with
  | IGNORE => "OR IGNORE"
  | REPLACE => "OR REPLACE"
  | ABORT => "OR ABORT"
  | ROLLBACK => "OR ROLLBACK"
  | FAIL => "OR FAIL"
  end.

(** The two character classes of the pattern
    [^[a-zA-Z_][a-zA-Z0-9_.\s*()]*$]; [\s] is white space as [str.isspace]
    has it. *)
Definition is_identifier_start (c : ascii) : bool :=
  Url.is_alpha c || Url.is_char "_" c.

Definition is_identifier_char (c : ascii) : bool :=
  Url.is_alpha c || Url.is_digit c || Url.is_char "_" c || Url.is_char "." c
  || Headers.is_space c || Url.is_char "*" c || Url.is_char "(" c || Url.is_char ")" c.

Arguments is_identifier_start : simpl never.
Arguments is_identifier_char : simpl never.

(** [re.match(pattern, name)] *)
Definition matches_identifier (name : string) : bool :=
  match String.list_ascii_of_string name with
  | c :: rest => is_identifier_start c && forallb is_identifier_char rest
  | [] => false
  end.

Definition _validate_identifier (name : string) : outcome string :=
  if matches_identifier name then Returned name
  else Raised ("Invalid identifier: " +:+ name).

(** [[self._validate_identifier(c) for c in columns]] *)
Fixpoint validate_all (columns : list string) : outcome (list string) :=
  match columns with
  | [] => Returned []
  | c :: rest =>
      match _validate_identifier c with
      | Raised e => Raised e
      | Returned col =>
          match validate_all rest with
          | Raised e => Raised e
          | Returned cols => Returned (col :: cols)
          end
      end
  end.

(** [sep.join(parts)] *)
Fixpoint join (sep : string) (parts : list string) : string :=
  match parts with
  | [] => ""
  | [part] => part
  | part :: rest => part +:+ sep +:+ join sep rest
  end.

(** The text both [insert] and [insert_many] build. *)
Definition insert_text (on_conflict : option ConflictAction) (table : string)
    (cols : list string) (placeholders : string) : string :=
  let conflict :=
    match on_conflict with
    | Some action => " " +:+ conflict_value action
    | None => ""
    end in
  "INSERT" +:+ conflict +:+ " INTO " +:+ table +:+ " (" +:+ join ", " cols
  +:+ ") VALUES (" +:+ placeholders +:+ ")".

Section Values.
Context {V : Type}.

(** [insert]; the [dict] is the list of its items in order. *)
Definition insert (table : string) (data : list (string * V))
    (on_conflict : option ConflictAction) : outcome (string * list V) :=
  match _validate_identifier table with
  | Raised e => Raised e
  | Returned table =>
      match validate_all data.*1 with
      | Raised e => Raised e
      | Returned columns =>
          let values := data.*2 in
          let placeholders := join ", " (replicate (length values) "?") in
          Returned (insert_text on_conflict table columns placeholders, values)
      end
  end.

Definition insert_many (table : string) (columns : list string) (data : list (list V))
    (on_conflict : option ConflictAction) : outcome (string * list (list V)) :=
  match _validate_identifier table with
  | Raised e => Raised e
  | Returned table =>
      match validate_all columns with
      | Raised e => Raised e
      | Returned cols =>
          let placeholders := join ", " (replicate (length cols) "?") in
          Returned (insert_text on_conflict table cols placeholders, data)
      end
  end.

End Values.

(** The number of [?] of a statement. *)
Definition placeholders (query : string) : nat :=
  length (filter (λ c, Url.is_char "?" c = true) (String.list_ascii_of_string query)).

(** A character that ends or opens something in SQL: a quote of either
    kind (code 34 is the double quote), a semicolon, a question mark, a comma,
    a dash, an equals sign, a back quote. *)
Definition is_sql_punctuation (c : ascii) : bool :=
  Url.is_char "'" c || (Url.code c =? 34) || Url.is_char ";" c || Url.is_char "?" c
  || Url.is_char "," c || Url.is_char "-" c || Url.is_char "=" c || Url.is_char "`" c.

(** ** [DatabaseManager.log_url_batch] up to the call of the database *)

(** A value bound to a placeholder. *)
Inductive cell : Type :=
| CNull
| CInt (n : Z)
| CStr (s : string).

Definition opt_int (n : option Z) : cell :=
  match n with Some n => CInt n | None => CNull end.
Definition opt_str (s : option string) : cell :=
  match s with Some s => CStr s | None => CNull end.

Definition url_columns : list string :=
  ["session_id"; "url"; "normalized_url"; "domain"; "path"; "depth"; "status_code";
   "content_type"; "response_time_ms"; "error_message"].

(** The tuple built from one [url_data]; a key that the dictionary lacks
    gives [None], and [0] for the depth. *)
Definition url_row (session_id : Z) (url_data : BufferHandler.Record_) : list cell :=
  match url_data with
  | BufferHandler.url_record _ url normalized_url domain path depth status_code
      content_type response_time_ms error_message =>
      [CInt session_id; CStr url; CStr normalized_url; CStr domain; CStr path;
       CInt depth; opt_int status_code; opt_str content_type;
       opt_int response_time_ms; opt_str error_message]
  | BufferHandler.subdomain_record _ _ _ =>
      [CInt session_id; CNull; CNull; CNull; CNull; CInt 0; CNull; CNull; CNull; CNull]
  end.

(** The statement and the rows that [log_url_batch] hands to
    [execute_many]; [None] when it returns 0 at once. *)
Definition log_url_batch_statement (session_id : Z) (urls : list BufferHandler.Record_)
  : option (outcome (string * list (list cell))) :=
  match urls with
  | [] => None
  | _ :: _ =>
      Some (insert_many "crawled_urls" url_columns (url_row session_id <$> urls)
              (Some IGNORE))
  end.

End QueryBuilder.

(** * Verification: the buffer and flush pipeline *)

Section BufferFacts.
Import BufferHandler.
Context {DB : Type} `{DbManager DB}.

Lemma add_record_buffer (w : write_event) (r : Record_) (h : CrawlBufferHandler DB) :
  buffer (add_record w r h) = buffer h ++ [r].
Proof. by destruct w. Qed.

Lemma add_record_written (r : Record_) (h : CrawlBufferHandler DB) :
  buffer_file (add_record WriteOk r h) = Holds (buffer h ++ [r]).
Proof. done. Qed.

Lemma add_records_buffer (rs : list (write_event * Record_)) (h : CrawlBufferHandler DB) :
  buffer (add_records rs h) = buffer h ++ rs.*2.
Proof.
  revert h. unfold add_records.
  induction rs as [|[w r] rs IH]; intros h; simpl.
  - by rewrite app_nil_r.
  - rewrite IH, add_record_buffer. by rewrite <- app_assoc.
Qed.

Lemma flush_empty (rm_ok : bool) (h : CrawlBufferHandler DB) :
  buffer h = [] → flush rm_ok h = (h, 0).
Proof. unfold flush. by intros ->. Qed.

Lemma flush_insert_raised (rm_ok : bool) (h : CrawlBufferHandler DB) d e :
  buffer h ≠ [] →
  _insert_to_database (session_id h) (buffer h) (db_manager h) = (d, Raised e) →
  flush rm_ok h = (set_buffer (buffer h ++ buffer h) (set_db_manager d h), 0).
Proof.
  intros Hne Hins. unfold flush. rewrite Hins.
  destruct (buffer h) eqn:Hb; [done|]. simpl. by rewrite Hb.
Qed.

(** C2. When the insert raises, [flush] returns 0 and leaves the buffer
    extended by a second copy of the batch: the buffer it leaves is not the
    buffer it found. *)
Theorem flush_failure_extends_buffer (rm_ok : bool) (h : CrawlBufferHandler DB) d e :
  buffer h ≠ [] →
  _insert_to_database (session_id h) (buffer h) (db_manager h) = (d, Raised e) →
  (flush rm_ok h).2 = 0
  ∧ buffer (flush rm_ok h).1 = buffer h ++ buffer h
  ∧ buffer (flush rm_ok h).1 ≠ buffer h.
Proof.
  intros Hne Hins. rewrite (flush_insert_raised rm_ok h d e Hne Hins). simpl.
  split_and!; [done..|].
  intros Heq. apply (f_equal length) in Heq. rewrite length_app in Heq.
  destruct (buffer h); [done|]. simpl in Heq. lia.
Qed.

(** C3 (amended). Whatever was appended before and however those writes
    went, an append whose mirror write succeeds leaves a mirror that holds
    the whole buffer: the records the buffer had, the appended ones and the
    last one, in that order. *)
Theorem add_record_mirrors_buffer (h : CrawlBufferHandler DB)
    (earlier : list (write_event * Record_)) (r : Record_) :
  let h' := add_record WriteOk r (add_records earlier h) in
  buffer h' = buffer h ++ earlier.*2 ++ [r]
  ∧ buffer_file h' = Holds (buffer h').
Proof.
  cbv zeta. rewrite add_record_written, add_record_buffer, add_records_buffer.
  by rewrite <- app_assoc.
Qed.

Lemma final_flush_returned (rm_ok rm_ok' : bool) (h h' : CrawlBufferHandler DB) n :
  final_flush rm_ok rm_ok' h = (h', Returned n) → buffer_file h' = Absent.
Proof.
  unfold final_flush. destruct (flush rm_ok h) as [h1 k].
  destruct (buffer_file h1) eqn:Hf; destruct rm_ok'; intros [= <- <-]; done.
Qed.

Lemma final_flush_returns (rm_ok : bool) (h : CrawlBufferHandler DB) :
  final_flush rm_ok true h
  = (set_buffer_file Absent (flush rm_ok h).1, Returned (flush rm_ok h).2).
Proof.
  unfold final_flush. destruct (flush rm_ok h) as [h1 k]. simpl.
  destruct h1 as [? ? ? ? ? [] ?]; done.
Qed.

(** C10. Whenever [final_flush] returns, the mirror file is gone; it returns
    whenever its own [os.remove] goes through; and when the insert raised it
    returns 0 with both copies of the batch in the buffer and no mirror. *)
Theorem final_flush_removes_mirror (rm_ok rm_ok' : bool) (h : CrawlBufferHandler DB) :
  (∀ h' n, final_flush rm_ok rm_ok' h = (h', Returned n) → buffer_file h' = Absent)
  ∧ (rm_ok' = true → ∃ h' n, final_flush rm_ok rm_ok' h = (h', Returned n))
  ∧ (∀ d e,
       rm_ok' = true →
       buffer h ≠ [] →
       _insert_to_database (session_id h) (buffer h) (db_manager h) = (d, Raised e) →
       ∃ h', final_flush rm_ok rm_ok' h = (h', Returned 0)
             ∧ buffer h' = buffer h ++ buffer h
             ∧ buffer h' ≠ []
             ∧ buffer_file h' = Absent).
Proof.
  split_and!.
  - intros h' n. apply final_flush_returned.
  - intros ->. rewrite final_flush_returns. eauto.
  - intros d e -> Hne Hins. rewrite final_flush_returns.
    rewrite (flush_insert_raised rm_ok h d e Hne Hins). simpl.
    eexists. split_and!; [done..| |done].
    simpl. destruct (buffer h); done.
Qed.

End BufferFacts.

Lemma flush_failure_extends_buffer_witness :
  BufferHandler.buffer
    (BufferHandler.flush (H := BufferHandler.failing_sink) true BufferHandler.failing_handler).1
  = [BufferHandler.a_record; BufferHandler.a_record].
Proof.
  destruct (flush_failure_extends_buffer (H := BufferHandler.failing_sink)
              true BufferHandler.failing_handler tt "sqlite3.OperationalError")
    as (_ & Hb & _); [done | reflexivity |].
  exact Hb.
Defined.

(** C3, as stated, fails when [open] raises: the record is in the buffer and
    the mirror does not hold it. *)
Lemma mirror_stale_after_failed_write :
  let h := BufferHandler.add_record BufferHandler.OpenRaises BufferHandler.a_record BufferHandler.fresh_handler in
  BufferHandler.buffer h = [BufferHandler.a_record]
  ∧ BufferHandler.buffer_file h ≠ BufferHandler.Holds (BufferHandler.buffer h).
Proof. split; [reflexivity | discriminate]. Qed.

Lemma final_flush_removes_mirror_witness :
  ∃ h', BufferHandler.final_flush (H := BufferHandler.failing_sink) true true BufferHandler.failing_handler
        = (h', Returned 0)
        ∧ BufferHandler.buffer h' = [BufferHandler.a_record; BufferHandler.a_record]
        ∧ BufferHandler.buffer_file h' = BufferHandler.Absent.
Proof.
  destruct (final_flush_removes_mirror (H := BufferHandler.failing_sink)
              true true BufferHandler.failing_handler) as (_ & _ & Hfail).
  destruct (Hfail tt "sqlite3.OperationalError") as (h' & Hr & Hb & _ & Hf);
    [reflexivity | discriminate | reflexivity |].
  exists h'. split_and!; [exact Hr | exact Hb | exact Hf].
Defined.

(** * Verification: the URL classifier and the link extractor *)

Section ClassifierFacts.

Variable extract : string → ExtractResult.

Lemma get_subdomain_cases (url : string) :
  get_subdomain extract url
  = if decide (subdomain (extract url) = "" ∨ subdomain (extract url) = "www")
    then None
    else Some (subdomain (extract url) +:+ "." +:+ domain (extract url)
               +:+ "." +:+ suffix (extract url)).
Proof.
  unfold get_subdomain.
  destruct (decide _) as [Hd|Hn]; repeat case_bool_decide; simpl;
    first [done | tauto].
Qed.

(** C9. [get_subdomain] is [None] exactly when the subdomain that
    [tldextract] reports is empty or the bare label [www]; otherwise it is
    that subdomain followed by the registrable domain. On the three URLs of
    the specification, split the way [tldextract] splits them, it gives
    [api.example.com], [None] and [None]. *)
Theorem get_subdomain_spec :
  (∀ url,
     (get_subdomain extract url = None
      ↔ subdomain (extract url) = "" ∨ subdomain (extract url) = "www")
     ∧ (∀ s, get_subdomain extract url = Some s →
             s = subdomain (extract url) +:+ "." +:+ domain (extract url)
                 +:+ "." +:+ suffix (extract url)))
  ∧ (extract "https://api.example.com/x" = mkExtract "api" "example" "com" →
     get_subdomain extract "https://api.example.com/x" = Some "api.example.com")
  ∧ (extract "https://www.example.com" = mkExtract "www" "example" "com" →
     get_subdomain extract "https://www.example.com" = None)
  ∧ (extract "https://example.com" = mkExtract "" "example" "com" →
     get_subdomain extract "https://example.com" = None).
Proof.
  split_and!.
  - intros url. rewrite get_subdomain_cases.
    destruct (decide _) as [Hd|Hn]; split; try done.
    + intros s [= <-]. done.
  - intros He. rewrite get_subdomain_cases, He. done.
  - intros He. rewrite get_subdomain_cases, He. done.
  - intros He. rewrite get_subdomain_cases, He. done.
Qed.

End ClassifierFacts.

Lemma get_subdomain_spec_witness :
  get_subdomain last_label_extract "https://api.example.com/x" = Some "api.example.com"
  ∧ get_subdomain last_label_extract "https://www.example.com" = None
  ∧ get_subdomain last_label_extract "https://example.com" = None.
Proof.
  destruct (get_subdomain_spec last_label_extract) as (_ & H1 & H2 & H3).
  split_and!; [apply H1 | apply H2 | apply H3]; vm_compute; reflexivity.
Defined.

Section ExtractorFacts.

Variable urljoin : string → string → string.

Lemma extract_list_of_strings (ss : list string) (base_url : string) :
  extract_urls_from_json urljoin (JList (JString <$> ss)) base_url = [].
Proof. simpl. induction ss as [|s ss IH]; simpl; [done|exact IH]. Qed.

(** C6. A string that is an item of a list is walked as a value that is
    neither a [dict] nor a [list], and yields nothing: on
    [{"links": ["https://a.test/x"]}] and on [["/a"]] the extractor returns
    the empty list, where the walk of the specification returns one
    candidate; so it is for every list of strings. *)
Theorem json_list_items_not_extracted :
  (∀ ss base_url, extract_urls_from_json urljoin (JList (JString <$> ss)) base_url = [])
  ∧ (∀ key ss base_url,
       extract_urls_from_json urljoin (JDict [(key, JList (JString <$> ss))]) base_url = [])
  ∧ (∀ base_url,
       extract_urls_from_json urljoin
         (JDict [("links", JList [JString "https://a.test/x"])]) base_url = []
       ∧ spec_json_candidates urljoin
           (JDict [("links", JList [JString "https://a.test/x"])]) base_url
         = [normalize_url (urljoin base_url "https://a.test/x")])
  ∧ (∀ base_url,
       extract_urls_from_json urljoin (JList [JString "/a"]) base_url = []
       ∧ spec_json_candidates urljoin (JList [JString "/a"]) base_url
         = [normalize_url (urljoin base_url "/a")]).
Proof.
  split_and!.
  - apply extract_list_of_strings.
  - intros key ss base_url.
    pose proof (extract_list_of_strings ss base_url) as Hl. simpl in *.
    by rewrite Hl.
  - intros base_url. split; reflexivity.
  - intros base_url. split; reflexivity.
Qed.

(** A string that is the value of a member is extracted. *)
Lemma extract_dict_string (key s base_url : string) :
  looks_like_url s = true →
  extract_urls_from_json urljoin (JDict [(key, JString s)]) base_url
  = [normalize_url (urljoin base_url s)].
Proof. intros Hs. simpl. by rewrite Hs. Qed.

End ExtractorFacts.

(** * Verification: the fetch worker and the scheduler *)

Section EngineFacts.
Import BufferHandler Engine.
Context {DB : Type} `{DbManager DB}.

Variable extract : string → ExtractResult.
Variable re_search : string → string → bool.
Variable urljoin : string → string → string.

Local Abbreviation crawl_url_finish := (crawl_url_finish extract re_search urljoin).
Local Abbreviation process_candidates := (process_candidates extract re_search).
Local Abbreviation on_response := (on_response extract re_search urljoin).
Local Abbreviation step := (step extract re_search urljoin).
Local Abbreviation run := (run extract re_search urljoin).
Local Abbreviation complete := (complete extract re_search urljoin).

(** ** What a worker leaves untouched *)

Lemma same_core_refl (sh : Shared DB) : same_core sh sh.
Proof. by repeat split. Qed.

Lemma same_core_trans (sh1 sh2 sh3 : Shared DB) :
  same_core sh1 sh2 → same_core sh2 sh3 → same_core sh1 sh3.
Proof. unfold same_core. intros (-> & -> & -> & ->) (-> & -> & -> & ->). done. Qed.

Lemma note_subdomain_core (url : string) (sh : Shared DB) :
  same_core sh (note_subdomain extract url sh).
Proof. unfold note_subdomain. destruct (get_subdomain _ _); by repeat split. Qed.

Lemma process_candidates_core (args : Args) (base : string) (depth : Z)
    (candidates : list string) (sh : Shared DB) (acc : list (string * Z)) :
  same_core sh (process_candidates args base depth candidates sh acc).1.
Proof.
  revert sh acc. induction candidates as [|u us IH]; intros sh acc; simpl.
  - apply same_core_refl.
  - destruct (shutdown_flag sh); [apply same_core_refl|].
    repeat (case_match; try apply IH).
    all: eapply same_core_trans; [apply note_subdomain_core|apply IH].
Qed.


Lemma log_url_handler (w : write_event) (url : string) (depth : Z) sc ct rt em
    (sh : Shared DB) (h : CrawlBufferHandler DB) :
  buffer_handler sh = Some h →
  ∃ h', buffer_handler (log_url w url depth sc ct rt em sh) = Some h'
        ∧ buffer h' = buffer h ++ [record_of h url depth sc ct rt em]
        ∧ session_id h' = session_id h.
Proof.
  intros Hh. unfold log_url. rewrite Hh. simpl. eexists. split; [done|].
  unfold add_url_record. rewrite add_record_buffer. split; [done|]. by destruct w.
Qed.

Lemma log_url_rest (w : write_event) (url : string) (depth : Z) sc ct rt em
    (sh : Shared DB) :
  visited_urls (log_url w url depth sc ct rt em sh) = visited_urls sh
  ∧ shutdown_flag (log_url w url depth sc ct rt em sh) = shutdown_flag sh
  ∧ pbar (log_url w url depth sc ct rt em sh) = pbar sh.
Proof. unfold log_url. by destruct (buffer_handler sh). Qed.

Lemma log_url_none (w : write_event) (url : string) (depth : Z) sc ct rt em
    (sh : Shared DB) :
  buffer_handler sh = None → log_url w url depth sc ct rt em sh = sh.
Proof. intros Hh. unfold log_url. by rewrite Hh. Qed.

Lemma on_exception_log (w : write_event) (url : string) (depth : Z) (e : exn)
    (sh : Shared DB) :
  on_exception w url depth e sh
  = log_url w url depth None None None (Some (error_text e)) sh.
Proof. by destruct e. Qed.

(** [on_response] logs the record of the response and then works on the
    sets of subdomains and paths only. *)
Lemma on_response_core (w : write_event) (args : Args) (base url : string)
    (depth : Z) (response : Response) (sh : Shared DB) :
  same_core
    (log_url w url depth (Some (status response)) (content_type_header response)
       (Some (request_time_ms response)) None sh)
    (on_response w args base url depth response sh).1.
Proof.
  unfold Engine.on_response.
  set (sh0 := log_url _ _ _ _ _ _ _ _).
  case_bool_decide; [|apply same_core_refl].
  set (sh1 := if is_same_domain extract url base then _ else _).
  assert (same_core sh0 sh1) as H1.
  { subst sh1. destruct (is_same_domain extract url base); by repeat split. }
  clearbody sh1.
  set (sh2 := if _ && _ then _ else _).
  assert (same_core sh1 sh2) as H2.
  { subst sh2. destruct (_ && _); by repeat split. }
  clearbody sh2.
  pose proof (note_subdomain_core (response_url response) sh2) as H3.
  assert (same_core sh0 (note_subdomain extract (response_url response) sh2)) as H4.
  { eapply same_core_trans; [exact H1|]. eapply same_core_trans; [exact H2|exact H3]. }
  repeat (case_match; simplify_eq; simpl; try exact H4).
  all: match goal with
  | Hp : Engine.process_candidates _ _ ?a ?b ?d ?cs ?s ?acc = (?s', _) |- same_core _ ?s' =>
      pose proof (process_candidates_core a b d cs s acc) as Hc;
      rewrite Hp in Hc; simpl in Hc;
      eapply same_core_trans; [exact H4|exact Hc]
  end.
Qed.


(** ** Records *)

Lemma crawl_url_enter_visited (url : string) (sh sh1 : Shared DB) :
  crawl_url_enter url sh = Some sh1 →
  shutdown_flag sh = false
  ∧ (url ∉ visited_urls sh)
  ∧ visited_urls sh1 = ({[url]} ∪ visited_urls sh)
  ∧ buffer_handler sh1 = buffer_handler sh
  ∧ shutdown_flag sh1 = false.
Proof.
  unfold crawl_url_enter. destruct (shutdown_flag sh) eqn:Hf; [done|].
  case_bool_decide; [done|]. intros [= <-]. done.
Qed.

Lemma crawl_url_finish_rest (w w' : write_event) (args : Args) (base url : string)
    (depth : Z) (answer : fetch) (sh : Shared DB) :
  visited_urls (crawl_url_finish w w' args base url depth answer sh).1 = visited_urls sh
  ∧ shutdown_flag (crawl_url_finish w w' args base url depth answer sh).1
    = shutdown_flag sh.
Proof.
  unfold crawl_url_finish. destruct answer as [response|e].
  - pose proof (on_response_core w args base url depth response sh) as (Hv & Hf & _).
    destruct (on_response _ _ _ _ _ _ _) as [sh' [e|l]]; simpl in *.
    + rewrite on_exception_log.
      destruct (log_url_rest w' url depth None None None (Some (error_text e)) sh')
        as (-> & -> & _).
      rewrite Hv, Hf.
      by destruct (log_url_rest w url depth (Some (status response))
        (content_type_header response) (Some (request_time_ms response)) None sh)
        as (-> & -> & _).
    + rewrite Hv, Hf.
      by destruct (log_url_rest w url depth (Some (status response))
        (content_type_header response) (Some (request_time_ms response)) None sh)
        as (-> & -> & _).
  - simpl. rewrite on_exception_log.
    by destruct (log_url_rest w' url depth None None None (Some (error_text e)) sh)
      as (-> & -> & _).
Qed.

(** What one attempt adds to the buffer: the record of the response, and
    after it the record of an [except] clause when the [try] was left by an
    exception; without a response, the record of the [except] clause. *)
Lemma crawl_url_finish_logged (w w' : write_event) (args : Args) (base url : string)
    (depth : Z) (answer : fetch) (sh : Shared DB) (h : CrawlBufferHandler DB) :
  buffer_handler sh = Some h →
  ∃ h', buffer_handler (crawl_url_finish w w' args base url depth answer sh).1 = Some h'
    ∧ buffer h' = buffer h ++
        match answer with
        | Got response =>
            record_of h url depth (Some (status response))
              (content_type_header response) (Some (request_time_ms response)) None
            :: match (on_response w args base url depth response sh).2 with
               | inr _ => []
               | inl e => [record_of h url depth None None None (Some (error_text e))]
               end
        | Failed e => [record_of h url depth None None None (Some (error_text e))]
        end.
Proof.
  intros Hh. unfold crawl_url_finish. destruct answer as [response|e].
  - pose proof (on_response_core w args base url depth response sh) as (_ & _ & Hb & _).
    destruct (log_url_handler w url depth (Some (status response))
      (content_type_header response) (Some (request_time_ms response)) None sh h Hh)
      as (h1 & Hh1 & Hb1 & Hs1).
    rewrite Hh1 in Hb.
    destruct (on_response _ _ _ _ _ _ _) as [sh' [e|l]]; simpl in *.
    + rewrite on_exception_log.
      destruct (log_url_handler w' url depth None None None (Some (error_text e)) sh' h1 Hb)
        as (h2 & Hh2 & Hb2 & _).
      exists h2. split; [done|]. rewrite Hb2, Hb1, <- app_assoc. simpl.
      unfold record_of. by rewrite Hs1.
    + exists h1. by split.
  - simpl. rewrite on_exception_log.
    destruct (log_url_handler w' url depth None None None (Some (error_text e)) sh h Hh)
      as (h1 & Hh1 & Hb1 & _).
    exists h1. by split.
Qed.

Lemma on_response_body_raised (w : write_event) (args : Args) (base url : string)
    (depth : Z) (response : Response) (sh : Shared DB) (e : exn) :
  status response = 200%Z →
  contains "application/json" (str_lower (default "" (content_type_header response)))
    = false →
  contains "text/html" (str_lower (default "" (content_type_header response))) = true →
  anchors response = inl e →
  (on_response w args base url depth response sh).2 = inl e.
Proof.
  intros Hs Hj Ht Ha. unfold Engine.on_response.
  rewrite bool_decide_eq_true_2 by done. by rewrite Hj, Ht, Ha.
Qed.

(** C1. A worker that entered its URL, got a 200 response declared as HTML,
    and was hit by an exception while reading the body, has put one URL into
    [visited_urls] and two URL records into the buffer: the record of the
    response and the record of the [except] clause. *)
Theorem crawl_url_logs_twice (w w' : write_event) (args : Args) (base url : string)
    (depth : Z) (response : Response) (e : exn) (sh sh1 : Shared DB)
    (h : CrawlBufferHandler DB) :
  buffer_handler sh = Some h →
  crawl_url_enter url sh = Some sh1 →
  status response = 200%Z →
  contains "application/json" (str_lower (default "" (content_type_header response)))
    = false →
  contains "text/html" (str_lower (default "" (content_type_header response))) = true →
  anchors response = inl e →
  let done := crawl_url_finish w w' args base url depth (Got response) sh1 in
  size (visited_urls done.1) = S (size (visited_urls sh))
  ∧ ∃ h', buffer_handler done.1 = Some h'
      ∧ buffer h' = buffer h ++
          [record_of h url depth (Some 200%Z) (content_type_header response)
             (Some (request_time_ms response)) None;
           record_of h url depth None None None (Some (error_text e))]
      ∧ length (filter (λ r, is_url r = true) (buffer h'))
        = length (filter (λ r, is_url r = true) (buffer h)) + 2.
Proof.
  intros Hh Henter Hs Hj Ht Ha done.
  apply crawl_url_enter_visited in Henter as (_ & Hnew & Hv & Hb & _).
  rewrite <- Hb in Hh.
  split.
  - subst done. rewrite (proj1 (crawl_url_finish_rest _ _ _ _ _ _ _ _)), Hv.
    rewrite size_union, size_singleton; [done|]. by apply disjoint_singleton_l.
  - destruct (crawl_url_finish_logged w w' args base url depth (Got response) sh1 h Hh)
      as (h' & Hh' & Hb').
    rewrite (on_response_body_raised w args base url depth response sh1 e Hs Hj Ht Ha)
      in Hb'.
    exists h'. rewrite <- Hs. split_and!; [done..|].
    rewrite Hb', filter_app, length_app. done.
Qed.

(** ** Depth *)

Lemma process_candidates_depth (args : Args) (base : string) (depth : Z)
    (candidates : list string) (sh : Shared DB) (acc : list (string * Z)) :
  Forall (λ e, e.2 = (depth + 1)%Z ∧ (depth < max_depth args)%Z) acc →
  Forall (λ e, e.2 = (depth + 1)%Z ∧ (depth < max_depth args)%Z)
    (process_candidates args base depth candidates sh acc).2.
Proof.
  revert sh acc. induction candidates as [|u us IH]; intros sh acc Hacc; simpl.
  - done.
  - destruct (shutdown_flag sh); [done|].
    repeat (case_match; try by apply IH).
    apply IH. case_bool_decide; [|done].
    apply Forall_app. split; [done|]. by repeat constructor.
Qed.

Lemma crawl_url_finish_depth (w w' : write_event) (args : Args) (base url : string)
    (depth : Z) (answer : fetch) (sh : Shared DB) :
  Forall (λ e, e.2 = (depth + 1)%Z ∧ (depth < max_depth args)%Z)
    (crawl_url_finish w w' args base url depth answer sh).2.
Proof.
  unfold crawl_url_finish. destruct answer as [response|e]; [|done].
  unfold Engine.on_response.
  case_bool_decide; [|done].
  repeat (case_match; simplify_eq; try done); simpl.
  all: match goal with
  | Hp : Engine.process_candidates _ _ ?a ?b ?d ?cs ?s [] = (_, ?l) |- Forall _ ?l =>
      pose proof (process_candidates_depth a b d cs s [] (Forall_nil_2 _)) as Hd;
      by rewrite Hp in Hd
  end.
Qed.

Lemma draw_split (n : nat) (pending : list (string * Z)) :
  draw n false pending = (take n pending, drop n pending).
Proof.
  revert pending. induction n as [|n IH]; intros [|e rest]; simpl; try done.
  by rewrite IH.
Qed.

Lemma start_tasks_depth (args : Args) (batch : list (string * Z)) (sh : Shared DB) :
  Forall (within_depth args) batch →
  Forall (task_within_depth args) (start_tasks batch sh).2.
Proof.
  revert sh. induction batch as [|[url depth] rest IH]; intros sh Hb; simpl; [done|].
  inversion_clear Hb as [|? ? He Hrest].
  destruct (crawl_url_enter url sh) as [sh'|].
  - specialize (IH sh' Hrest). destruct (start_tasks rest sh'). simpl in *.
    by constructor.
  - specialize (IH sh Hrest). destruct (start_tasks rest sh). simpl in *.
    constructor; [|done]. by apply Forall_nil.
Qed.

Lemma collect_depth (args : Args) (visited : gset string)
    (results : list (list (string * Z))) (pending : list (string * Z)) :
  Forall (within_depth args) pending →
  Forall (Forall (within_depth args)) results →
  Forall (within_depth args) (collect visited results pending).
Proof.
  revert pending. induction results as [|r rs IH]; intros pending Hp Hr; simpl; [done|].
  inversion_clear Hr as [|? ? Hr1 Hrs].
  destruct r as [|e r]; [by apply IH|].
  apply IH; [|done]. apply Forall_app. split; [done|].
  unfold new_unique_urls. apply Forall_forall. intros x Hx.
  apply list_elem_of_filter in Hx as [_ Hx].
  by apply (proj1 (Forall_forall _ _) Hr1).
Qed.

Lemma step_within_depth (args : Args) (base : string) (ev : event) (c : Crawl) :
  frontier_within_depth args c → frontier_within_depth args (step args base ev c).
Proof.
  intros [Hp Ht]. unfold frontier_within_depth in *.
  destruct c as [sh pending ots fin]; simpl in *.
  destruct ev as [| |i w w' answer| |rm_ok]; simpl.
  - done.
  - unfold iterate; simpl. destruct ots as [ts|]; [done|].
    destruct fin; [done|].
    destruct (_ && _) eqn:Hgo; [|done].
    apply andb_true_iff in Hgo as [_ Hflag]. apply negb_true_iff in Hflag.
    rewrite Hflag, draw_split.
    pose proof (start_tasks_depth args
      (take (Z.to_nat (Z.min (workers args * 2) (Z.of_nat (length pending)))) pending) sh)
      as Hs.
    destruct (start_tasks _ _) as [sh' ts]. simpl in *. split.
    + by apply Forall_drop.
    + intros ? [= <-]. apply Hs. by apply Forall_take.
  - unfold Engine.complete; simpl. destruct ots as [ts|]; [|done].
    destruct (ts !! i) as [[url depth|]|] eqn:Hi; try done.
    pose proof (crawl_url_finish_depth w w' args base url depth answer sh) as Hd.
    destruct (crawl_url_finish _ _ _ _ _ _ _ _) as [sh' new_urls]. simpl in *.
    split; [done|]. intros ? [= <-].
    pose proof (Ht ts eq_refl) as Hts.
    apply Forall_insert; [done|]. simpl.
    pose proof (Forall_lookup_1 _ _ _ _ Hts Hi) as Hrun. simpl in Hrun.
    eapply Forall_impl; [exact Hd|]. intros [u d] [Hd1 Hd2]. unfold within_depth.
    simpl in *. lia.
  - unfold gathered; simpl. destruct ots as [ts|]; [|done].
    destruct (forallb is_done ts); [|done].
    split; simpl; [|done].
    apply collect_depth; [done|]. apply Forall_fmap.
    eapply Forall_impl; [exact (Ht ts eq_refl)|]. intros [u d|r] Hr; simpl; [|done].
    by apply Forall_nil.
  - unfold monitor; simpl. destruct (buffer_handler sh); done.
Qed.

Lemma run_within_depth (args : Args) (base : string) (evs : list event) (c : Crawl) :
  frontier_within_depth args c → frontier_within_depth args (run args base evs c).
Proof.
  revert c. induction evs as [|ev evs IH]; intros c Hc; simpl; [done|].
  apply IH. by apply step_within_depth.
Qed.

(** C4. A child that the worker hands back has the depth of its parent
    plus one, and is handed back only when the parent's depth is below
    [max_depth]; and with [max_depth] not negative, whatever happens in a
    session, every entry of the pending list, every fetch in flight and every
    result of the running batch has a depth of at most [max_depth]. *)
Theorem frontier_depth_bounded (args : Args) (base_url : string)
    (handler : option (CrawlBufferHandler DB)) (evs : list event) :
  (0 ≤ max_depth args)%Z →
  (∀ w w' url depth answer (sh : Shared DB),
     Forall (λ child, child.2 = (depth + 1)%Z ∧ (depth < max_depth args)%Z)
       (crawl_url_finish w w' args base_url url depth answer sh).2)
  ∧ Forall (λ entry, (entry.2 ≤ max_depth args)%Z)
      (urls_to_visit (run args base_url evs (start handler base_url)))
  ∧ Forall (λ entry, (entry.2 ≤ max_depth args)%Z)
      (running (run args base_url evs (start handler base_url))).
Proof.
  intros Hmax. split; [intros; apply crawl_url_finish_depth|].
  assert (frontier_within_depth args (start handler base_url)) as Hstart.
  { split; [|done]. simpl. by repeat constructor. }
  pose proof (run_within_depth args base_url evs _ Hstart) as [Hp Ht].
  split; [exact Hp|].
  unfold running. destruct (tasks _) as [ts|]; [|done].
  specialize (Ht ts eq_refl).
  apply Forall_forall. intros [u d] Hin.
  apply list_elem_of_omap in Hin as ([u' d'|r] & Hin & Heq); simplify_eq.
  by pose proof (proj1 (Forall_forall _ _) Ht _ Hin).
Qed.

(** ** The scheduler *)




(** ** Cancellation *)





End EngineFacts.

Lemma crawl_url_logs_twice_witness :
  let done :=
    Engine.crawl_url_finish last_label_extract
      Engine.never_matches Engine.join_absolute BufferHandler.WriteOk
      BufferHandler.WriteOk Engine.args_depth_1 Engine.a_test Engine.a_test 0
      (Engine.Got Engine.stalled_page)
      (Engine.set_visited ({[Engine.a_test]} ∪ ∅) Engine.idle) in
  size (Engine.visited_urls done.1) = S (size (Engine.visited_urls Engine.idle))
  ∧ ∃ h', Engine.buffer_handler done.1 = Some h'
      ∧ BufferHandler.buffer h' = BufferHandler.buffer BufferHandler.fresh_handler ++
          [Engine.record_of BufferHandler.fresh_handler Engine.a_test 0 (Some 200%Z)
             (Some "text/html") (Some 12%Z) None;
           Engine.record_of BufferHandler.fresh_handler Engine.a_test 0 None None None
             (Some "Request timeout")]
      ∧ length (filter (λ r, BufferHandler.is_url r = true) (BufferHandler.buffer h'))
        = length (filter (λ r, BufferHandler.is_url r = true)
                    (BufferHandler.buffer BufferHandler.fresh_handler)) + 2.
Proof.
  apply (crawl_url_logs_twice last_label_extract
           Engine.never_matches Engine.join_absolute BufferHandler.WriteOk
           BufferHandler.WriteOk Engine.args_depth_1 Engine.a_test Engine.a_test 0
           Engine.stalled_page Engine.TimeoutError Engine.idle _
           BufferHandler.fresh_handler).
  - reflexivity.
  - reflexivity.
  - reflexivity.
  - vm_compute. reflexivity.
  - vm_compute. reflexivity.
  - reflexivity.
Defined.

Lemma frontier_depth_bounded_witness :
  Forall (λ entry : string * Z, (entry.2 ≤ 1)%Z)
    (Engine.urls_to_visit
       (Engine.run (H := BufferHandler.failing_sink) last_label_extract
          Engine.never_matches Engine.join_absolute Engine.args_depth_1 Engine.a_test
          [Engine.Iterate;
           Engine.Complete 0 BufferHandler.WriteOk BufferHandler.WriteOk
             (Engine.Got Engine.home_page);
           Engine.Gathered]
          (Engine.start (Some BufferHandler.fresh_handler) Engine.a_test))).
Proof.
  destruct (frontier_depth_bounded (H := BufferHandler.failing_sink) last_label_extract
              Engine.never_matches Engine.join_absolute Engine.args_depth_1 Engine.a_test
              (Some BufferHandler.fresh_handler)
              [Engine.Iterate;
               Engine.Complete 0 BufferHandler.WriteOk BufferHandler.WriteOk
                 (Engine.Got Engine.home_page);
               Engine.Gathered]) as (_ & Hp & _).
  - simpl. lia.
  - exact Hp.
Defined.



(** The session in which the body of the start page does not arrive: when
    the loop has ended, one URL is visited and two records are logged. *)
Lemma session_with_stalled_page :
  let c :=
    Engine.run (H := BufferHandler.failing_sink) last_label_extract
      Engine.never_matches Engine.join_absolute Engine.args_depth_1 Engine.a_test
      [Engine.Iterate;
       Engine.Complete 0 BufferHandler.WriteOk BufferHandler.WriteOk
         (Engine.Got Engine.stalled_page);
       Engine.Gathered; Engine.Iterate]
      (Engine.start (Some BufferHandler.fresh_handler) Engine.a_test) in
  Engine.finished c = true
  ∧ size (Engine.visited_urls (Engine.shared c)) = 1
  ∧ length (Engine.logged (Engine.shared c)) = 2.
Proof. vm_compute. done. Qed.

(** * Verification: [normalize_url] *)

Section UrlFacts.
Import Url.


(** ** Characters *)

Lemma is_char_eq (d c : ascii) : is_char d c = true → c = d.
Proof. unfold is_char. intros Heq. by apply Ascii.eqb_eq in Heq. Qed.

Lemma is_char_refl (d : ascii) : is_char d d = true.
Proof. unfold is_char. apply Ascii.eqb_refl. Qed.








(** ** Splitting *)

Lemma break_inv (p : ascii → bool) (s a b : list ascii) :
  break p s = (a, b) →
  s = a ++ b
  ∧ Forall (λ c, p c = false) a
  ∧ match b with [] => True | c :: _ => p c = true end.
Proof.
  revert a b. induction s as [|c s IH]; intros a b; simpl.
  - intros [= <- <-]. by repeat split.
  - destruct (p c) eqn:Hc.
    + intros [= <- <-]. by repeat split.
    + destruct (break p s) as [a' b']. intros [= <- <-].
      destruct (IH a' b' eq_refl) as (-> & Ha & Hb).
      repeat split; [by constructor|done].
Qed.

Lemma break_unique (p : ascii → bool) (a b : list ascii) :
  Forall (λ c, p c = false) a →
  match b with [] => True | c :: _ => p c = true end →
  break p (a ++ b) = (a, b).
Proof.
  intros Ha Hb. induction Ha as [|c a Hc Ha IH]; simpl.
  - destruct b as [|c b]; simpl; [done|]. by rewrite Hb.
  - by rewrite Hc, IH.
Qed.

Lemma split_once_inv (d : ascii) (s a b : list ascii) :
  split_once d s = (a, b) →
  Forall (not_char d) a ∧ ((s = a ∧ b = []) ∨ s = a ++ d :: b).
Proof.
  unfold split_once. destruct (break (is_char d) s) as [a' b'] eqn:Hb.
  apply break_inv in Hb as (-> & Ha & Hd).
  destruct b' as [|c b']; intros [= <- <-].
  - rewrite app_nil_r. split; [done|by left].
  - apply is_char_eq in Hd as ->. split; [done|by right].
Qed.

Lemma split_once_found (d : ascii) (a b : list ascii) :
  Forall (not_char d) a → split_once d (a ++ d :: b) = (a, b).
Proof.
  intros Ha. unfold split_once. rewrite break_unique; [done|done|].
  apply is_char_refl.
Qed.







Lemma existsb_none (d : ascii) (s : list ascii) :
  existsb (is_char d) s = false → Forall (not_char d) s.
Proof.
  induction s as [|c s IH]; simpl; [constructor|].
  intros [Hc Hs]%orb_false_iff. constructor; [done|by apply IH].
Qed.




(** ** The scheme and the clean-up *)






Lemma split_scheme_nil : split_scheme [] = ([], []).
Proof. done. Qed.

(** ** The shape of a parse result *)

Lemma starts_in_app (P : ascii → Prop) (a b : list ascii) :
  starts_in P (a ++ b) → a ≠ [] → starts_in P a.
Proof. by destruct a. Qed.
















(** ** Parsing what [urlunparse] built *)

Lemma lstrip_id (p : ascii → bool) (s : list ascii) :
  starts_in (λ c, p c = false) s → lstrip p s = s.
Proof. destruct s as [|c s]; simpl; [done|]. by intros ->. Qed.










(** ** Without a network location *)


















(** ** On [str] *)

Lemma to_of_chars (P : ParseChars) : to_chars (of_chars P) = P.
Proof.
  destruct P. unfold to_chars, of_chars. simpl.
  by rewrite !String.list_ascii_of_string_of_list_ascii.
Qed.




End UrlFacts.



(** * Verification: sequences of calls on the buffer handler *)

Section HandlerRunFacts.
Import BufferHandler HandlerRun.
Context {DB : Type} `{DbManager DB}.

Lemma flush_cases (rm_ok : bool) (h : CrawlBufferHandler DB) :
  (buffer h ≠ []
   ∧ (flush rm_ok h).2 = length (buffer h)
   ∧ buffer (flush rm_ok h).1 = []
   ∧ buffer_file (flush rm_ok h).1 = Absent
   ∧ flush_count (flush rm_ok h).1 = S (flush_count h)
   ∧ total_flushed (flush rm_ok h).1 = total_flushed h + length (buffer h))
  ∨ ((flush rm_ok h).2 = 0
     ∧ flush_count (flush rm_ok h).1 = flush_count h
     ∧ total_flushed (flush rm_ok h).1 = total_flushed h
     ∧ buffer_file (flush rm_ok h).1 = buffer_file h
     ∧ (buffer (flush rm_ok h).1 = buffer h
        ∨ buffer (flush rm_ok h).1 = buffer h ++ buffer h)).
Proof.
  unfold flush.
  destruct (buffer h) as [|r b] eqn:Hb.
  { right. simpl. rewrite Hb. tauto. }
  destruct (_insert_to_database _ _ _) as [d' [[]|e]]; simpl.
  - destruct (buffer_file h) eqn:Hf; simpl.
    + left. split_and!; done.
    + destruct rm_ok; simpl.
      * left. split_and!; done.
      * right. rewrite Hf. split_and!; auto.
    + destruct rm_ok; simpl.
      * left. split_and!; done.
      * right. rewrite Hf. split_and!; auto.
  - right. rewrite Hb. split_and!; auto.
Qed.

(** X1. [flush] has two outcomes and no third. Either it delivers: the
    buffer was not empty, the number returned is its length, the buffer is
    empty afterwards, the mirror is gone and both counters have moved. Or it
    returns 0 with the counters and the mirror as they were, and the buffer
    holds every record it held, once or twice over. *)
Lemma flush_delivers_or_keeps (rm_ok : bool) (h : CrawlBufferHandler DB) :
  (buffer h ≠ []
   ∧ (flush rm_ok h).2 = length (buffer h)
   ∧ buffer (flush rm_ok h).1 = []
   ∧ buffer_file (flush rm_ok h).1 = Absent
   ∧ flush_count (flush rm_ok h).1 = S (flush_count h)
   ∧ total_flushed (flush rm_ok h).1 = total_flushed h + length (buffer h))
  ∨ ((flush rm_ok h).2 = 0
     ∧ flush_count (flush rm_ok h).1 = flush_count h
     ∧ total_flushed (flush rm_ok h).1 = total_flushed h
     ∧ buffer_file (flush rm_ok h).1 = buffer_file h
     ∧ (buffer (flush rm_ok h).1 = buffer h
        ∨ buffer (flush rm_ok h).1 = buffer h ++ buffer h)).
Proof. apply flush_cases. Qed.

Lemma accounted_add_record (w : write_event) (r : Record_) (h : CrawlBufferHandler DB) :
  accounted (add_record w r h) = S (accounted h).
Proof.
  unfold accounted, get_stats; simpl.
  destruct w; simpl; rewrite length_app; simpl; lia.
Qed.



Lemma appended_cons (c : call) (cs : list call) :
  appended (c :: cs) = (if is_append c then 1 else 0) + appended cs.
Proof.
  unfold appended.
  destruct c; [rewrite filter_cons_True by done|rewrite filter_cons_False by done..];
    done.
Qed.


Lemma log_subdomains_returns (records : list Record_) (d : DB) :
  sink_returns → ∃ d', log_subdomains records d = (d', Returned tt).
Proof.
  intros [_ Hsub]. revert d.
  induction records as [|[|sid sub base] rest IH]; intros d; simpl; eauto.
  destruct (Hsub sid sub base d) as (d' & n & ->). apply IH.
Qed.

Lemma insert_to_database_returns (sid : Z) (data : list Record_) (d : DB) :
  sink_returns → ∃ d', _insert_to_database sid data d = (d', Returned tt).
Proof.
  intros Hs. unfold _insert_to_database.
  destruct (filter _ data) as [|r rs] at 1 2.
  - by apply log_subdomains_returns.
  - destruct Hs as [Hurl Hsub].
    destruct (Hurl sid (r :: rs) d) as (d' & n & ->).
    by apply log_subdomains_returns.
Qed.

Lemma accounted_flush_returns (rm_ok : bool) (h : CrawlBufferHandler DB) :
  sink_returns → accounted (flush rm_ok h).1 = accounted h.
Proof.
  intros Hs. unfold flush.
  destruct (buffer h) as [|r b] eqn:Hb; [done|].
  destruct (insert_to_database_returns (session_id h) (r :: b) (db_manager h) Hs)
    as [d' ->].
  unfold accounted, get_stats.
  destruct (buffer_file h) eqn:Hf; simpl; rewrite ?Hf; simpl;
    try destruct rm_ok; simpl; rewrite ?Hb; simpl; lia.
Qed.

Lemma records_counted_once_calls (cs : list call) (h : CrawlBufferHandler DB) :
  sink_returns →
  accounted (apply_calls cs h) = accounted h + appended cs.
Proof.
  intros Hs. revert h. unfold apply_calls.
  induction cs as [|c cs IH]; intros h; simpl.
  - unfold appended. simpl. lia.
  - rewrite appended_cons, IH.
    destruct c as [w r|rm_ok|rm_ok]; simpl.
    + rewrite accounted_add_record. lia.
    + rewrite accounted_flush_returns by done. lia.
    + unfold flush_if_needed. destruct (should_flush h); simpl; [|lia].
      rewrite accounted_flush_returns by done. lia.
Qed.

(** X3. With a sink that never raises the account is exact: after any
    sequence of appends, polls and flushes, whatever [os.remove] and the
    mirror writes do, [total_flushed] plus the size of the buffer has grown
    by the number of records appended, no more and no less. *)
Lemma records_counted_once (cs : list call) (h : CrawlBufferHandler DB) :
  sink_returns →
  accounted (apply_calls cs h) = accounted h + appended cs.
Proof. apply records_counted_once_calls. Qed.

Lemma mirror_is_prefix_call (c : call) (h : CrawlBufferHandler DB) :
  tears c = false → mirror_is_prefix h → mirror_is_prefix (apply_call c h).
Proof.
  assert (Hflush : ∀ rm_ok, mirror_is_prefix h → mirror_is_prefix (flush rm_ok h).1).
  { intros rm_ok Hm. unfold mirror_is_prefix in *.
    destruct (flush_cases rm_ok h)
      as [(_ & _ & _ & -> & _)|(_ & _ & _ & -> & [-> | ->])]; [done..|].
    destruct (buffer_file h); [done| |done].
    by apply prefix_app_r. }
  destruct c as [w r|rm_ok|rm_ok]; simpl; intros Hw Hm.
  - unfold mirror_is_prefix in *.
    destruct w; simpl in *; [done| |done].
    destruct (buffer_file h); [done| |done].
    by apply prefix_app_r.
  - by apply Hflush.
  - unfold flush_if_needed. destruct (should_flush h); simpl; [|done].
    by apply Hflush.
Qed.

(** X4. As long as no [json.dump] stops half-way, the mirror file, whenever
    it exists, holds the first records of the buffer in the buffer's order:
    it may miss the latest records (a failed [open], a failed flush that
    extended the buffer) and never holds a record the buffer does not. *)
Lemma mirror_holds_a_prefix (cs : list call) (h : CrawlBufferHandler DB) :
  Forall (λ c, tears c = false) cs →
  mirror_is_prefix h →
  mirror_is_prefix (apply_calls cs h).
Proof.
  intros Hcs. revert h. unfold apply_calls.
  induction Hcs as [|c cs Hc _ IH]; intros h Hm; simpl; [done|].
  apply IH. by apply mirror_is_prefix_call.
Qed.

(** X24. Shutdown delivers everything. With a sink that does not raise,
    and the mirror removable or absent, [final_flush] returns the number of
    records that were buffered, leaves the buffer empty and the mirror
    absent, and has counted every one of the records as flushed. *)
Lemma final_flush_delivers (rm_ok : bool) (h : CrawlBufferHandler DB) :
  sink_returns →
  rm_ok = true ∨ buffer_file h = Absent →
  ∃ h', final_flush rm_ok true h = (h', Returned (length (buffer h)))
        ∧ buffer h' = []
        ∧ buffer_file h' = Absent
        ∧ total_flushed h' = total_flushed h + length (buffer h).
Proof.
  intros Hs Hrm. unfold final_flush, flush.
  destruct (buffer h) as [|r b] eqn:Hb.
  { destruct (buffer_file h) eqn:Hf; eexists; (split; [done|]); simpl;
      rewrite ?Hb, ?Hf; split_and!; done || lia. }
  destruct (insert_to_database_returns (session_id h) (r :: b) (db_manager h) Hs)
    as [d' ->].
  destruct Hrm as [-> | Hf].
  - destruct (buffer_file h) eqn:Hf; repeat (progress (simpl; rewrite ?Hf));
      eexists; (split; [done|]); simpl; split_and!; done.
  - repeat (progress (simpl; rewrite ?Hf)).
    eexists. split; [done|]. simpl. split_and!; done.
Qed.

End HandlerRunFacts.

Lemma log_subdomains_calls (records : list BufferHandler.Record_)
    (calls : list HandlerRun.sink_call) :
  BufferHandler.log_subdomains (H := HandlerRun.tracing_sink) records calls
  = (calls ++ omap HandlerRun.subdomain_call records, Returned tt).
Proof.
  revert calls. induction records as [|[|sid sub base] rest IH]; intros calls; simpl.
  - by rewrite app_nil_r.
  - apply IH.
  - rewrite IH. by rewrite <- app_assoc.
Qed.

Lemma omap_subdomain_call_filter (data : list BufferHandler.Record_) :
  omap HandlerRun.subdomain_call
    (filter (λ r, BufferHandler.is_subdomain r = true) data)
  = omap HandlerRun.subdomain_call data.
Proof.
  induction data as [|[|sid sub base] rest IH]; [done| |].
  - rewrite filter_cons_False by done. done.
  - rewrite filter_cons_True by done.
    cbn [omap list_omap HandlerRun.subdomain_call]. by rewrite IH.
Qed.

(** X25. The order in which a batch reaches the database. Whatever the
    order of the records in the buffer, [_insert_to_database] first hands all
    the URL records over in one call of [log_url_batch], under the session of
    the handler and in buffer order, and does not make that call when there
    is no URL record; after it, it makes one call of [log_subdomain] for each
    subdomain record, in buffer order, under the session written in the
    record. *)
Lemma insert_to_database_calls (session_id : Z) (data : list BufferHandler.Record_)
    (calls : list HandlerRun.sink_call) :
  BufferHandler._insert_to_database (H := HandlerRun.tracing_sink) session_id data calls
  = (calls ++ HandlerRun.calls_of session_id data, Returned tt).
Proof.
  unfold BufferHandler._insert_to_database, HandlerRun.calls_of.
  destruct (filter (λ r, BufferHandler.is_url r = true) data) as [|r rs]; simpl.
  - by rewrite log_subdomains_calls, omap_subdomain_call_filter.
  - rewrite log_subdomains_calls, omap_subdomain_call_filter.
    by rewrite <- app_assoc.
Qed.

(** * Verification: invariants of a whole session *)

Section SessionFacts.
Import BufferHandler Engine HandlerRun Session.
Context {DB : Type} `{DbManager DB}.

Variable extract : string → ExtractResult.
Variable re_search : string → string → bool.
Variable urljoin : string → string → string.

Local Abbreviation crawl_url_finish := (crawl_url_finish extract re_search urljoin).
Local Abbreviation process_candidates := (process_candidates extract re_search).
Local Abbreviation on_response := (on_response extract re_search urljoin).
Local Abbreviation step := (step extract re_search urljoin).
Local Abbreviation run := (run extract re_search urljoin).
Local Abbreviation complete := (complete extract re_search urljoin).

Lemma never_shrinks_refl (sh : Shared DB) : never_shrinks sh sh.
Proof. by repeat split. Qed.

Lemma never_shrinks_trans (sh1 sh2 sh3 : Shared DB) :
  never_shrinks sh1 sh2 → never_shrinks sh2 sh3 → never_shrinks sh1 sh3.
Proof.
  intros (? & ? & ? & ?) (? & ? & ? & ?).
  split_and!; [set_solver..|auto].
Qed.

Lemma log_url_sets (w : write_event) (url : string) (depth : Z) sc ct rt em
    (sh : Shared DB) :
  found_subdomains (log_url w url depth sc ct rt em sh) = found_subdomains sh
  ∧ found_paths (log_url w url depth sc ct rt em sh) = found_paths sh.
Proof. unfold log_url. by destruct (buffer_handler sh). Qed.

Lemma log_url_never_shrinks (w : write_event) (url : string) (depth : Z) sc ct rt em
    (sh : Shared DB) :
  never_shrinks sh (log_url w url depth sc ct rt em sh).
Proof.
  destruct (log_url_rest w url depth sc ct rt em sh) as (Hv & Hf & _).
  destruct (log_url_sets w url depth sc ct rt em sh) as (Hs & Hp).
  unfold never_shrinks. rewrite Hv, Hf, Hs, Hp. by repeat split.
Qed.

Lemma note_subdomain_never_shrinks (url : string) (sh : Shared DB) :
  never_shrinks sh (note_subdomain extract url sh).
Proof.
  unfold note_subdomain. destruct (get_subdomain _ _); [|apply never_shrinks_refl].
  split_and!; simpl; [done|set_solver|done|done].
Qed.

Lemma process_candidates_never_shrinks (args : Args) (base : string) (depth : Z)
    (candidates : list string) (sh : Shared DB) (acc : list (string * Z)) :
  never_shrinks sh (process_candidates args base depth candidates sh acc).1.
Proof.
  revert sh acc. induction candidates as [|u us IH]; intros sh acc; simpl.
  - apply never_shrinks_refl.
  - destruct (shutdown_flag sh) eqn:Hflag; [apply never_shrinks_refl|].
    repeat (case_match; try apply IH).
    all: eapply never_shrinks_trans; [apply note_subdomain_never_shrinks|apply IH].
Qed.

Lemma on_response_never_shrinks (w : write_event) (args : Args) (base url : string)
    (depth : Z) (response : Response) (sh : Shared DB) :
  never_shrinks sh (on_response w args base url depth response sh).1.
Proof.
  unfold on_response.
  set (sh1 := log_url w url depth _ _ _ _ sh).
  assert (H1 : never_shrinks sh sh1) by apply log_url_never_shrinks.
  clearbody sh1.
  case_bool_decide; [|done].
  set (sh2 := if is_same_domain extract url base then _ else sh1).
  assert (H2 : never_shrinks sh1 sh2).
  { subst sh2. destruct (is_same_domain extract url base);
      [|apply never_shrinks_refl].
    split_and!; simpl; [done|done|set_solver|done]. }
  clearbody sh2.
  set (sh3 := if _ && _ then _ else sh2).
  assert (H3 : never_shrinks sh2 sh3).
  { subst sh3. destruct (_ && _); [|apply never_shrinks_refl].
    split_and!; simpl; [done|done|set_solver|done]. }
  clearbody sh3.
  set (sh4 := note_subdomain extract _ sh3).
  assert (H4 : never_shrinks sh3 sh4) by apply note_subdomain_never_shrinks.
  clearbody sh4.
  assert (H14 : never_shrinks sh sh4) by eauto using never_shrinks_trans.
  match goal with
  | |- context [match ?p with inl e => _ | inr candidates => _ end] => destruct p as [e|l]
  end; [done|].
  pose proof (process_candidates_never_shrinks args base depth l sh4 []) as H5.
  destruct (process_candidates _ _ _ _ _ _) as [sh5 new]. simpl in *.
  eauto using never_shrinks_trans.
Qed.

Lemma pbar_update_never_shrinks (n : nat) (sh : Shared DB) :
  never_shrinks sh (pbar_update n sh).
Proof. by repeat split. Qed.

Lemma crawl_url_finish_never_shrinks (w w' : write_event) (args : Args)
    (base url : string) (depth : Z) (answer : fetch) (sh : Shared DB) :
  never_shrinks sh (crawl_url_finish w w' args base url depth answer sh).1.
Proof.
  unfold crawl_url_finish. destruct answer as [response|e].
  - pose proof (on_response_never_shrinks w args base url depth response sh) as Hr.
    destruct (on_response _ _ _ _ _ _ _) as [sh' [e|l]]; simpl in *.
    + rewrite on_exception_log.
      eapply never_shrinks_trans; [|apply pbar_update_never_shrinks].
      eapply never_shrinks_trans; [exact Hr|apply log_url_never_shrinks].
    + eapply never_shrinks_trans; [exact Hr|apply pbar_update_never_shrinks].
  - simpl. rewrite on_exception_log.
    eapply never_shrinks_trans; [|apply pbar_update_never_shrinks].
    apply log_url_never_shrinks.
Qed.

Lemma start_tasks_never_shrinks (batch : list (string * Z)) (sh : Shared DB) :
  never_shrinks sh (start_tasks batch sh).1.
Proof.
  revert sh. induction batch as [|[url depth] rest IH]; intros sh; simpl.
  - apply never_shrinks_refl.
  - destruct (crawl_url_enter url sh) as [sh1|] eqn:Henter.
    + pose proof (IH sh1) as IH1.
      destruct (start_tasks rest sh1) as [sh2 ts]. simpl in *.
      eapply never_shrinks_trans; [|exact IH1].
      unfold crawl_url_enter in Henter.
      destruct (shutdown_flag sh) eqn:Hf; [done|].
      case_bool_decide; [done|]. simplify_eq.
      split_and!; simpl; [set_solver|done|done|by rewrite Hf].
    + pose proof (IH sh) as IH1.
      by destruct (start_tasks rest sh) as [sh2 ts].
Qed.

Lemma step_never_shrinks (args : Args) (base : string) (ev : event) (c : Crawl) :
  never_shrinks (shared c) (shared (step args base ev c)).
Proof.
  destruct c as [sh pending ots fin].
  destruct ev as [| |i w w' answer| |rm_ok]; simpl.
  - by repeat split.
  - unfold iterate; simpl.
    destruct ots as [ts|]; [apply never_shrinks_refl|].
    destruct fin; [apply never_shrinks_refl|].
    destruct (_ && _); [|apply never_shrinks_refl].
    destruct (draw _ _ _) as [batch pending'].
    pose proof (start_tasks_never_shrinks batch sh).
    by destruct (start_tasks batch sh) as [sh' ts].
  - unfold complete; simpl.
    destruct ots as [ts|]; [|apply never_shrinks_refl].
    destruct (ts !! i) as [[url depth|r]|]; try apply never_shrinks_refl.
    pose proof (crawl_url_finish_never_shrinks w w' args base url depth answer sh).
    by destruct (crawl_url_finish _ _ _ _ _ _ _ _) as [sh' new].
  - unfold gathered; simpl.
    destruct ots as [ts|]; [|apply never_shrinks_refl].
    destruct (forallb is_done ts); apply never_shrinks_refl.
  - unfold monitor; simpl.
    destruct (buffer_handler sh); [|apply never_shrinks_refl].
    by repeat split.
Qed.

(** X5. Nothing is ever taken back during a session: whatever happens, in
    whatever order, a URL once in [visited_urls], a subdomain once in
    [found_subdomains] and a path once in [found_paths] stay there, and the
    shutdown flag, once raised, is not lowered. *)
Lemma discoveries_are_kept (args : Args) (base_url : string) (evs : list event)
    (c : Crawl) :
  visited_urls (shared c) ⊆ visited_urls (shared (run args base_url evs c))
  ∧ found_subdomains (shared c) ⊆ found_subdomains (shared (run args base_url evs c))
  ∧ found_paths (shared c) ⊆ found_paths (shared (run args base_url evs c))
  ∧ (shutdown_flag (shared c) = true →
     shutdown_flag (shared (run args base_url evs c)) = true).
Proof.
  change (never_shrinks (shared c) (shared (run args base_url evs c))).
  revert c. unfold run.
  induction evs as [|ev evs IH]; intros c; simpl.
  - apply never_shrinks_refl.
  - eapply never_shrinks_trans; [apply step_never_shrinks|apply IH].
Qed.

(** ** Every visited URL is fetched once *)

Lemma in_flight_cons_running (url : string) (depth : Z) (ts : list Task)
    (sh : Shared DB) pending fin :
  in_flight (mkCrawl sh pending (Some (Running url depth :: ts)) fin)
  = url :: in_flight (mkCrawl sh pending (Some ts) fin).
Proof. done. Qed.

Lemma in_flight_cons_done (r : list (string * Z)) (ts : list Task)
    (sh : Shared DB) pending fin :
  in_flight (mkCrawl sh pending (Some (Done r :: ts)) fin)
  = in_flight (mkCrawl sh pending (Some ts) fin).
Proof. done. Qed.

Lemma in_flight_shared (sh sh' : Shared DB) pending pending' ots fin fin' :
  in_flight (mkCrawl sh pending ots fin) = in_flight (mkCrawl sh' pending' ots fin').
Proof. done. Qed.

(** The tasks of a batch that start are those of URLs not seen before, each
    once; their URLs are what [visited_urls] gains. *)
Lemma start_tasks_fetched_once (batch : list (string * Z)) (sh : Shared DB)
    pending fin :
  let started :=
    in_flight (mkCrawl sh pending (Some (start_tasks batch sh).2) fin) in
  NoDup started
  ∧ (∀ url, url ∈ started → url ∉ visited_urls sh)
  ∧ visited_urls (start_tasks batch sh).1 = list_to_set started ∪ visited_urls sh
  ∧ pbar (start_tasks batch sh).1 = pbar sh.
Proof.
  revert sh. induction batch as [|[url depth] rest IH]; intros sh; simpl.
  - split_and!; [constructor|by intros url ?%elem_of_nil| |done].
    unfold in_flight. simpl. by rewrite (left_id_L ∅ (∪)).
  - destruct (crawl_url_enter url sh) as [sh1|] eqn:Henter.
    + assert (Hp : pbar sh1 = pbar sh).
      { unfold crawl_url_enter in Henter. repeat case_match; by simplify_eq. }
      apply crawl_url_enter_visited in Henter as (_ & Hnew & Hv & _ & _).
      specialize (IH sh1). simpl in IH.
      destruct (start_tasks rest sh1) as [sh2 ts]. simpl in *.
      rewrite in_flight_cons_running.
      destruct IH as (Hnd & Hfresh & Hv2 & Hp2).
      rewrite (in_flight_shared sh1 sh pending pending (Some ts) fin fin) in *.
      split_and!.
      * constructor; [|done]. intros Hin. apply Hfresh in Hin.
        apply Hin. rewrite Hv. by apply elem_of_union_l, elem_of_singleton.
      * intros u [->|Hin]%elem_of_cons; [done|].
        apply Hfresh in Hin. intros Hu.
        apply Hin. rewrite Hv. by apply elem_of_union_r.
      * rewrite Hv2, Hv. simpl.
        by rewrite !(assoc_L (∪)), (comm_L (∪) (list_to_set _) {[url]}).
      * congruence.
    + specialize (IH sh). simpl in IH.
      destruct (start_tasks rest sh) as [sh2 ts]. simpl in *.
      by rewrite in_flight_cons_done.
Qed.

Lemma crawl_url_finish_pbar (w w' : write_event) (args : Args) (base url : string)
    (depth : Z) (answer : fetch) (sh : Shared DB) :
  pbar (crawl_url_finish w w' args base url depth answer sh).1 = S (pbar sh).
Proof.
  unfold crawl_url_finish. destruct answer as [response|e].
  - pose proof (on_response_core extract re_search urljoin w args base url depth
                  response sh) as (_ & _ & _ & Hp).
    destruct (log_url_rest w url depth (Some (status response))
      (content_type_header response) (Some (request_time_ms response)) None sh)
      as (_ & _ & Hp1).
    destruct (on_response _ _ _ _ _ _ _) as [sh' [e|l]]; simpl in *.
    + rewrite on_exception_log.
      destruct (log_url_rest w' url depth None None None (Some (error_text e)) sh')
        as (_ & _ & ->). lia.
    + lia.
  - simpl. rewrite on_exception_log.
    destruct (log_url_rest w' url depth None None None (Some (error_text e)) sh)
      as (_ & _ & ->). lia.
Qed.

Lemma in_flight_app (ts ts' : list Task) (sh : Shared DB) pending fin :
  in_flight (mkCrawl sh pending (Some (ts ++ ts')) fin)
  = in_flight (mkCrawl sh pending (Some ts) fin)
    ++ in_flight (mkCrawl sh pending (Some ts') fin).
Proof. unfold in_flight, running. simpl. by rewrite omap_app, fmap_app. Qed.

(** The task that comes back leaves the fetches in flight, and only it. *)
Lemma in_flight_insert_done (ts : list Task) (i : nat) (url : string) (depth : Z)
    (r : list (string * Z)) (sh sh' : Shared DB) pending fin :
  ts !! i = Some (Running url depth) →
  ∃ before after,
    in_flight (mkCrawl sh pending (Some ts) fin) = before ++ url :: after
    ∧ in_flight (mkCrawl sh' pending (Some (<[i := Done r]> ts)) fin) = before ++ after.
Proof.
  intros Hi.
  exists (in_flight (mkCrawl sh pending (Some (take i ts)) fin)),
         (in_flight (mkCrawl sh pending (Some (drop (S i) ts)) fin)).
  split.
  - rewrite <- (take_drop_middle ts i _ Hi) at 1.
    by rewrite in_flight_app, in_flight_cons_running.
  - rewrite insert_take_drop by (by eapply lookup_lt_Some).
    rewrite (in_flight_shared sh' sh pending pending _ fin fin).
    by rewrite in_flight_app, in_flight_cons_done.
Qed.

Lemma in_flight_all_done (ts : list Task) (sh : Shared DB) pending fin :
  forallb is_done ts = true →
  in_flight (mkCrawl sh pending (Some ts) fin) = [].
Proof.
  induction ts as [|[url depth|r] ts IH]; simpl; [done|done|].
  intros Hd. rewrite in_flight_cons_done. by apply IH.
Qed.

Lemma step_fetched_once (args : Args) (base : string) (ev : event) (c : Crawl) :
  fetched_once c → fetched_once (step args base ev c).
Proof.
  destruct c as [sh pending ots fin].
  destruct ev as [| |i w w' answer| |rm_ok]; simpl; intros (Hnd & Hin & Hsize).
  - done.
  - unfold iterate; simpl.
    destruct ots as [ts|]; [done|]. destruct fin; [done|].
    destruct (_ && _); [|done].
    destruct (draw _ _ _) as [batch pending'].
    pose proof (start_tasks_fetched_once batch sh pending' false)
      as (Hnd' & Hfresh & Hv & Hp).
    destruct (start_tasks batch sh) as [sh' ts]. simpl in *.
    unfold fetched_once; simpl.
    rewrite (in_flight_shared sh' sh pending' pending' (Some ts) false false).
    split_and!; [done| |].
    + intros url Hu. rewrite Hv. by apply elem_of_union_l, elem_of_list_to_set.
    + rewrite Hv, size_union, size_list_to_set, Hp by
        (done || (intros url Hu%elem_of_list_to_set; by apply Hfresh)).
      unfold in_flight in Hsize. simpl in Hsize. lia.
  - unfold complete; simpl.
    destruct ots as [ts|]; [|done].
    destruct (ts !! i) as [[url depth|r]|] eqn:Hi; try done.
    pose proof (crawl_url_finish_rest extract re_search urljoin w w' args base url
                  depth answer sh) as (Hv & _).
    pose proof (crawl_url_finish_pbar w w' args base url depth answer sh) as Hp.
    destruct (crawl_url_finish _ _ _ _ _ _ _ _) as [sh' new]. simpl in *.
    destruct (in_flight_insert_done ts i url depth new sh sh' pending fin Hi)
      as (before & after & Hb & Ha).
    unfold fetched_once; simpl. rewrite Ha, Hv, Hp. rewrite Hb in Hnd, Hin, Hsize.
    split_and!.
    + apply NoDup_app in Hnd as (Hn1 & Hn2 & Hn3).
      apply NoDup_cons in Hn3 as (_ & Hn3).
      apply NoDup_app. split_and!; [done| |done].
      intros u Hu Hu'. apply (Hn2 u Hu). by apply elem_of_cons; right.
    + intros u Hu. apply Hin. apply elem_of_app in Hu as [Hu|Hu];
        apply elem_of_app; [by left|right; by apply elem_of_cons; right].
    + rewrite length_app in *. simpl in Hsize. lia.
  - unfold gathered; simpl.
    destruct ots as [ts|]; [|done].
    destruct (forallb is_done ts) eqn:Hd; [|done].
    unfold fetched_once; simpl.
    rewrite (in_flight_all_done ts sh pending fin Hd) in Hsize.
    split_and!; [constructor|by intros url ?%elem_of_nil|done].
  - unfold monitor; simpl.
    destruct (buffer_handler sh); done.
Qed.

Lemma each_url_counted (args : Args) (base_url : string)
    (handler : option (CrawlBufferHandler DB)) (evs : list event) :
  let c := run args base_url evs (start handler base_url) in
  NoDup (in_flight c)
  ∧ (∀ url, url ∈ in_flight c → url ∈ visited_urls (shared c))
  ∧ size (visited_urls (shared c)) = pbar (shared c) + length (in_flight c).
Proof.
  simpl. change (fetched_once (run args base_url evs (start handler base_url))).
  assert (Hstart : fetched_once (start handler base_url)).
  { split_and!; [constructor|by intros url ?%elem_of_nil|done]. }
  revert Hstart. generalize (start handler base_url). unfold run.
  induction evs as [|ev evs IH]; intros c Hc; simpl; [done|].
  apply IH. by apply step_fetched_once.
Qed.

(** X6. Every URL is fetched at most once. At every moment of a session
    that started from the base URL, the fetches in flight are for pairwise
    different URLs, all of them in [visited_urls], and the size of
    [visited_urls] is the number of fetches that came back (the count the
    progress bar shows) plus the number in flight: no URL stands for two
    fetches, and none is in the set without a fetch. *)
Lemma each_url_fetched_once (args : Args) (base_url : string)
    (handler : option (CrawlBufferHandler DB)) (evs : list event) :
  let c := run args base_url evs (start handler base_url) in
  NoDup (in_flight c)
  ∧ (∀ url, url ∈ in_flight c → url ∈ visited_urls (shared c))
  ∧ size (visited_urls (shared c)) = pbar (shared c) + length (in_flight c).
Proof. apply each_url_counted. Qed.

(** ** Records and fetches *)




Lemma start_tasks_flag (batch : list (string * Z)) (sh : Shared DB) :
  shutdown_flag (start_tasks batch sh).1 = shutdown_flag sh.
Proof.
  revert sh. induction batch as [|[url depth] rest IH]; intros sh; simpl; [done|].
  destruct (crawl_url_enter url sh) as [sh1|] eqn:Henter.
  - apply crawl_url_enter_visited in Henter as (Hf & _ & _ & _ & Hf1).
    specialize (IH sh1). destruct (start_tasks rest sh1) as [sh2 ts].
    simpl in *. congruence.
  - specialize (IH sh). by destruct (start_tasks rest sh) as [sh2 ts].
Qed.





(** ** What a fetch gives *)







(** ** How a session ends *)

Lemma step_over (args : Args) (base : string) (ev : event) (c : Crawl) :
  over c → over (step args base ev c).
Proof.
  destruct c as [sh pending ots fin]. unfold over.
  destruct ev as [| |i w w' answer| |rm_ok]; simpl; intros Hc.
  - intros Hfin. destruct (Hc Hfin) as [-> _]. by split; [|left].
  - unfold iterate; simpl.
    destruct ots as [ts|]; [done|]. destruct fin; [done|].
    destruct (bool_decide (pending ≠ [])) eqn:Hp; simpl.
    + destruct (shutdown_flag sh) eqn:Hf; simpl.
      * intros _. by split; [|left].
      * destruct (draw _ _ _) as [batch pending'].
        by destruct (start_tasks batch sh) as [sh' ts].
    + intros _. split; [done|right].
      apply bool_decide_eq_false in Hp. by apply dec_stable.
  - unfold complete; simpl.
    destruct ots as [ts|]; [|done].
    destruct fin; [by destruct (Hc eq_refl)|].
    destruct (ts !! i) as [[url depth|r]|]; try done.
    by destruct (crawl_url_finish _ _ _ _ _ _ _ _) as [sh' new].
  - unfold gathered; simpl.
    destruct ots as [ts|]; [|done].
    destruct fin; [by destruct (Hc eq_refl)|].
    by destruct (forallb is_done ts).
  - unfold monitor; simpl.
    destruct (buffer_handler sh); done.
Qed.

Lemma step_not_interrupted (args : Args) (base : string) (ev : event) (c : Crawl) :
  ev ≠ Sigint →
  shutdown_flag (shared (step args base ev c)) = shutdown_flag (shared c).
Proof.
  intros Hev. destruct c as [sh pending ots fin].
  destruct ev as [| |i w w' answer| |rm_ok]; simpl; [done| | | |].
  - unfold iterate; simpl.
    destruct ots as [ts|]; [done|]. destruct fin; [done|].
    destruct (_ && _); [|done].
    destruct (draw _ _ _) as [batch pending'].
    pose proof (start_tasks_flag batch sh) as Hf.
    by destruct (start_tasks batch sh) as [sh' ts].
  - unfold complete; simpl.
    destruct ots as [ts|]; [|done].
    destruct (ts !! i) as [[url depth|r]|]; try done.
    pose proof (crawl_url_finish_rest extract re_search urljoin w w' args base url
                  depth answer sh) as (_ & Hf).
    by destruct (crawl_url_finish _ _ _ _ _ _ _ _) as [sh' new].
  - unfold gathered; simpl.
    destruct ots as [ts|]; [|done].
    by destruct (forallb is_done ts).
  - unfold monitor; simpl.
    by destruct (buffer_handler sh).
Qed.

(** X11. How a session ends. Once the loop of [main] is left, in a session
    that started from the base URL, no fetch is in flight; if the session is
    then reported as completed, the frontier is empty, and every URL of
    [visited_urls] has been fetched and has come back. A session that no
    interrupt reaches is reported as completed. *)
Lemma completed_means_exhausted (args : Args) (base_url : string)
    (handler : option (CrawlBufferHandler DB)) (evs : list event) :
  let c := run args base_url evs (start handler base_url) in
  (finished c = true →
   in_flight c = []
   ∧ (session_status c = "completed" →
      urls_to_visit c = []
      ∧ size (visited_urls (shared c)) = pbar (shared c)))
  ∧ (Sigint ∉ evs → session_status c = "completed").
Proof.
  simpl. split.
  - assert (Hover : over (run args base_url evs (start handler base_url))).
    { assert (Hstart : over (start handler base_url)) by done.
      revert Hstart. generalize (start handler base_url). unfold run.
      induction evs as [|ev evs IH]; intros c Hc; simpl; [done|].
      apply IH. by apply step_over. }
    pose proof (each_url_counted args base_url handler evs) as (_ & _ & Hsize).
    intros Hfin. destruct (Hover Hfin) as [Ht Hend].
    assert (Hnone : in_flight (run args base_url evs (start handler base_url)) = []).
    { unfold in_flight, running. by rewrite Ht. }
    split; [done|]. unfold session_status.
    destruct (shutdown_flag _) eqn:Hf; [done|]. intros _.
    destruct Hend as [?|Hend]; [done|]. split; [done|].
    rewrite Hsize, Hnone. simpl. lia.
  - intros Hno. unfold session_status.
    assert (Hflag : shutdown_flag (shared (start handler base_url)) = false) by done.
    revert Hflag Hno. generalize (start handler base_url). unfold run.
    induction evs as [|ev evs IH]; intros c Hc Hno; simpl.
    + by rewrite Hc.
    + apply not_elem_of_cons in Hno as [Hev Hno].
      apply IH; [|done]. rewrite step_not_interrupted by done. done.
Qed.

(** X12. With [--workers 0] the session never ends by itself. Each round
    of the loop draws an empty batch, gathers no task and leaves the state as
    it was: the frontier stays non-empty, nothing is fetched, and the loop is
    not left. *)
Lemma no_workers_no_progress (args : Args) (base_url : string) (c : Crawl) (n : nat) :
  workers args = 0%Z →
  tasks c = None →
  finished c = false →
  urls_to_visit c ≠ [] →
  shutdown_flag (shared c) = false →
  run args base_url (rounds n) c = c.
Proof.
  intros Hw Ht Hfin Hp Hf. unfold rounds.
  induction n as [|n IH]; simpl; [done|].
  assert (Hround : gathered (iterate args c) = c).
  { destruct c as [sh pending ots fin]. simpl in *. subst.
    unfold iterate. simpl.
    rewrite bool_decide_eq_true_2, Hf, Hw by done. simpl.
    destruct pending; done. }
  unfold run in *. simpl. by rewrite Hround.
Qed.

End SessionFacts.

(** * Verification: what [normalize_url] keeps of every URL *)

Section NormalizeFacts.
Import Url.







End NormalizeFacts.

(** * Verification: the JSON walk and the scope of a crawl *)

Section WalkFacts.

Variable extract : string → ExtractResult.
Variable re_search : string → string → bool.
Variable urljoin : string → string → string.

(** Induction on a JSON value, with the items of an array and the members
    of an object as smaller values. *)
Lemma json_induction (P : json → Prop) :
  P JNull → (∀ b, P (JBool b)) → (∀ n, P (JNumber n)) → (∀ s, P (JString s)) →
  (∀ items, Forall P items → P (JList items)) →
  (∀ members, Forall (λ member, P member.2) members → P (JDict members)) →
  ∀ data, P data.
Proof.
  intros Hnull Hbool Hnum Hstr Hlist Hdict.
  fix IH 1. intros [|b|n|s|items|members]; [done..| |].
  - apply Hlist. induction items as [|item items IHitems]; constructor; [apply IH|done].
  - apply Hdict. induction members as [|[key value] members IHmembers];
      constructor; [apply IH|done].
Qed.

Lemma extract_dict_cons (key : string) (value : json) (members : list (string * json))
    (base_url : string) :
  extract_urls_from_json urljoin (JDict ((key, value) :: members)) base_url
  = match value with
    | JString s =>
        if looks_like_url s then [normalize_url (urljoin base_url s)] else []
    | JDict _ | JList _ => extract_urls_from_json urljoin value base_url
    | _ => []
    end ++ extract_urls_from_json urljoin (JDict members) base_url.
Proof. done. Qed.

Lemma extract_list_cons (item : json) (items : list json) (base_url : string) :
  extract_urls_from_json urljoin (JList (item :: items)) base_url
  = extract_urls_from_json urljoin item base_url
    ++ extract_urls_from_json urljoin (JList items) base_url.
Proof. done. Qed.

Lemma spec_dict_cons (key : string) (value : json) (members : list (string * json))
    (base_url : string) :
  spec_json_candidates urljoin (JDict ((key, value) :: members)) base_url
  = spec_json_candidates urljoin value base_url
    ++ spec_json_candidates urljoin (JDict members) base_url.
Proof. done. Qed.

Lemma spec_list_cons (item : json) (items : list json) (base_url : string) :
  spec_json_candidates urljoin (JList (item :: items)) base_url
  = spec_json_candidates urljoin item base_url
    ++ spec_json_candidates urljoin (JList items) base_url.
Proof. done. Qed.

(** X14. The JSON walk invents nothing and keeps the order: for every
    JSON value, the URLs it yields are a sublist of the normalized joins of
    the URL-like strings of the value, taken in document order. *)
Lemma json_walk_is_sound (data : json) (base_url : string) :
  extract_urls_from_json urljoin data base_url
    `sublist_of` spec_json_candidates urljoin data base_url.
Proof.
  induction data as [|b|n|s|items IH|members IH] using json_induction;
    try apply sublist_nil_l.
  - induction IH as [|item items Hitem _ IHitems]; [done|].
    rewrite extract_list_cons, spec_list_cons. by apply sublist_app.
  - induction IH as [|[key value] members Hvalue _ IHmembers]; [done|].
    rewrite extract_dict_cons, spec_dict_cons. apply sublist_app; [|done].
    simpl in Hvalue. destruct value; try apply sublist_nil_l; done.
Qed.

(** X15. Where the JSON walk is complete. When every string of the value
    is the value of a member of an object (none is an item of an array, and
    the value is not itself a string), the walk yields the normalized join
    of every URL-like string, at any depth of objects and arrays, in document
    order, and nothing else. Keys play no part. *)
Lemma json_walk_of_members (data : json) (base_url : string) :
  strings_are_members data = true →
  extract_urls_from_json urljoin data base_url
  = spec_json_candidates urljoin data base_url.
Proof.
  induction data as [|b|n|s|items IH|members IH] using json_induction; try done.
  - induction IH as [|item items Hitem _ IHitems]; [done|].
    intros Hm. rewrite extract_list_cons, spec_list_cons.
    change (strings_are_members item && strings_are_members (JList items) = true)
      in Hm.
    apply andb_true_iff in Hm as [Hi Hl].
    by rewrite Hitem, IHitems.
  - induction IH as [|[key value] members Hvalue _ IHmembers]; [done|].
    intros Hm. rewrite extract_dict_cons, spec_dict_cons.
    change (match value with
            | JString _ => true
            | _ => strings_are_members value
            end && strings_are_members (JDict members) = true) in Hm.
    apply andb_true_iff in Hm as [Hv Hms].
    rewrite IHmembers by done. f_equal.
    simpl in Hvalue. destruct value; try done; by apply Hvalue.
Qed.

(** X16. The scope of a crawl does not depend on which URL of the site is
    taken as base: [is_same_domain] is reflexive, symmetric and transitive
    for every [extract], and two bases that are on the same domain give a
    page the same children. *)
Lemma scope_is_the_registered_domain (args : Engine.Args) (base base' : string)
    (depth : Z) (candidates : list string) :
  (∀ url, is_same_domain extract url url = true)
  ∧ (∀ url1 url2, is_same_domain extract url1 url2 = is_same_domain extract url2 url1)
  ∧ (∀ url1 url2 url3,
       is_same_domain extract url1 url2 = true →
       is_same_domain extract url2 url3 = true →
       is_same_domain extract url1 url3 = true)
  ∧ (is_same_domain extract base base' = true →
     Session.children_of extract re_search args base depth candidates
     = Session.children_of extract re_search args base' depth candidates).
Proof.
  assert (Hsame : ∀ url1 url2,
    is_same_domain extract url1 url2 = true
    ↔ domain (extract url1) = domain (extract url2)
      ∧ suffix (extract url1) = suffix (extract url2)).
  { intros url1 url2. unfold is_same_domain.
    rewrite andb_true_iff, !bool_decide_eq_true. done. }
  split_and!.
  - intros url. by apply Hsame.
  - intros url1 url2. apply eq_true_iff_eq. rewrite !Hsame.
    split; intros [? ?]; by split.
  - intros url1 url2 url3 [? ?]%Hsame [? ?]%Hsame. apply Hsame.
    split; congruence.
  - intros [Hd Hs]%Hsame. unfold Session.children_of.
    case_bool_decide; [|done]. f_equal.
    apply list_filter_iff. intros u. unfold Session.followed.
    assert (is_same_domain extract u base = is_same_domain extract u base') as ->; [|done].
    apply eq_true_iff_eq. rewrite !Hsame. rewrite Hd, Hs. done.
Qed.

(** X17. A URL whose host has no subdomain, or the subdomain [www], is
    never excluded by [--exclude-subdomains], whatever the pattern: only the
    path pattern can exclude it. An empty pattern is no pattern. *)
Lemma bare_host_is_not_excluded (url : string) (exclude_paths exclude_subdomains : option string) :
  subdomain (extract url) = "" ∨ subdomain (extract url) = "www" →
  should_exclude extract re_search url exclude_paths exclude_subdomains
  = match exclude_paths with
    | Some pat =>
        if bool_decide (pat = "") then false
        else re_search pat (Url.path (Url.urlparse url))
    | None => false
    end.
Proof.
  intros Hsub. unfold should_exclude.
  assert (Hnone : get_subdomain extract url = None).
  { unfold get_subdomain. destruct Hsub as [-> | ->]; done. }
  rewrite Hnone.
  destruct exclude_paths as [pat|].
  - case_bool_decide as Hpat.
    + subst pat. simpl. by destruct (truthy exclude_subdomains).
    + assert (truthy (Some pat) = Some pat) as ->.
      { destruct pat as [|c pat]; done. }
      destruct (re_search pat _); [done|]. by destruct (truthy exclude_subdomains).
  - simpl. by destruct (truthy exclude_subdomains).
Qed.

End WalkFacts.

(** * Verification: the custom request headers *)

Section HeaderFacts.
Import Url Headers.

Lemma lstrip_suffix (p : ascii → bool) (s : list ascii) :
  ∃ dropped, s = dropped ++ lstrip p s.
Proof.
  induction s as [|c s [dropped IH]]; simpl; [by exists []|].
  destruct (p c); [|by exists []].
  exists (c :: dropped). simpl. by rewrite <- IH.
Qed.

Lemma lstrip_start (p : ascii → bool) (s : list ascii) :
  starts_in (λ c, p c = false) (lstrip p s).
Proof.
  induction s as [|c s IH]; simpl; [done|].
  destruct (p c) eqn:Hc; [done|]. simpl. done.
Qed.

Lemma lstrip_chars (p : ascii → bool) (Q : ascii → Prop) (s : list ascii) :
  Forall Q s → Forall Q (lstrip p s).
Proof.
  intros Hs. destruct (lstrip_suffix p s) as [dropped Heq].
  rewrite Heq in Hs. by apply Forall_app in Hs as [_ ?].
Qed.

Lemma strip_chars_chars (Q : ascii → Prop) (s : list ascii) :
  Forall Q s → Forall Q (strip_chars s).
Proof.
  intros Hs. unfold strip_chars.
  apply Forall_rev, lstrip_chars, Forall_rev. by apply lstrip_chars.
Qed.

(** What [strip] returns has no white space at either end. *)
Lemma strip_chars_ends (s : list ascii) :
  starts_in (λ c, is_space c = false) (strip_chars s)
  ∧ starts_in (λ c, is_space c = false) (rev (strip_chars s)).
Proof.
  unfold strip_chars. rewrite rev_involutive.
  split; [|apply lstrip_start].
  destruct (lstrip_suffix is_space (rev (lstrip is_space s))) as [dropped Heq].
  pose proof (lstrip_start is_space s) as Hstart.
  apply (f_equal (λ l, rev l)) in Heq. rewrite rev_involutive, rev_app_distr in Heq.
  rewrite Heq in Hstart.
  destruct (rev (lstrip is_space (rev (lstrip is_space s)))) as [|c t] eqn:Hr; [done|].
  by eapply starts_in_app.
Qed.

Lemma strip_chars_idempotent (s : list ascii) :
  strip_chars (strip_chars s) = strip_chars s.
Proof.
  destruct (strip_chars_ends s) as [Hl Hr].
  unfold strip_chars at 1.
  rewrite (lstrip_id is_space (strip_chars s)) by done.
  rewrite (lstrip_id is_space (rev (strip_chars s))) by done.
  apply rev_involutive.
Qed.

Lemma split_header_stripped (header : string) :
  stripped (split_header header).1
  ∧ stripped (split_header header).2
  ∧ has_colon (split_header header).1 = false.
Proof.
  unfold split_header, stripped, strip, has_colon.
  destruct (split_once ":" _) as [name value] eqn:Hsplit. simpl.
  rewrite !String.list_ascii_of_string_of_list_ascii, !strip_chars_idempotent.
  split_and!; [done..|].
  apply split_once_inv in Hsplit as [Hname _].
  apply (strip_chars_chars _ _) in Hname.
  induction Hname as [|c t Hc _ IH]; [done|]. simpl.
  unfold not_char in Hc. by rewrite Hc.
Qed.

Lemma set_header_well_formed (header : string) (custom_headers : gmap string string) :
  well_formed custom_headers → well_formed (set_header header custom_headers).
Proof.
  intros Hm. unfold set_header. apply map_Forall_insert_2; [|done].
  apply split_header_stripped.
Qed.

Lemma from_flags_well_formed (headers : list string) (custom_headers : gmap string string) :
  well_formed custom_headers → well_formed (from_flags headers custom_headers).
Proof.
  revert custom_headers. unfold from_flags.
  induction headers as [|header rest IH]; intros m Hm; simpl; [done|].
  apply IH. destruct (has_colon header); [|done]. by apply set_header_well_formed.
Qed.

Lemma from_file_well_formed (lines : list string) (custom_headers : gmap string string) :
  well_formed custom_headers → well_formed (from_file lines custom_headers).
Proof.
  revert custom_headers. unfold from_file.
  induction lines as [|line rest IH]; intros m Hm; simpl; [done|].
  apply IH. destruct (is_header_line _); [|done]. by apply set_header_well_formed.
Qed.

(** X18. Every custom header is clean: whatever the flags and the file
    hold, each name and each value of the dictionary that
    [parse_custom_headers] returns is stripped of white space at both ends,
    and no name holds a colon. *)
Lemma custom_headers_are_stripped (args : HeaderArgs) (file : file_read)
    (custom_headers : gmap string string) (name value : string) :
  parse_custom_headers args file = Some custom_headers →
  custom_headers !! name = Some value →
  strip name = name ∧ strip value = value ∧ has_colon name = false.
Proof.
  intros Hparse Hlookup.
  assert (Hwf : well_formed custom_headers); [|by apply (Hwf name value)].
  unfold parse_custom_headers in Hparse.
  assert (Hflags : well_formed
            match headers args with
            | Some (header :: rest) => from_flags (header :: rest) ∅
            | _ => ∅
            end).
  { destruct (headers args) as [[|header rest]|];
      [apply map_Forall_empty|apply from_flags_well_formed, map_Forall_empty
      |apply map_Forall_empty]. }
  destruct (headers_file args) as [[|c f]|]; simplify_eq; [done| |done].
  destruct file; simplify_eq. by apply from_file_well_formed.
Qed.

Lemma chars_of_append (s t : string) :
  String.list_ascii_of_string (s +:+ t)
  = String.list_ascii_of_string s ++ String.list_ascii_of_string t.
Proof. induction s as [|c s IH]; simpl; [done|]. by rewrite IH. Qed.

Lemma from_flags_last (headers : list string) (header : string)
    (custom_headers : gmap string string) :
  has_colon header = true →
  from_flags (headers ++ [header]) custom_headers !! (split_header header).1
  = Some (split_header header).2.
Proof.
  intros Hc. unfold from_flags. rewrite foldl_app. simpl. rewrite Hc.
  unfold set_header. by rewrite lookup_insert_eq.
Qed.

Lemma from_file_last (lines : list string) (line : string)
    (custom_headers : gmap string string) :
  is_header_line (strip line) = true →
  from_file (lines ++ [line]) custom_headers !! (split_header (strip line)).1
  = Some (split_header (strip line)).2.
Proof.
  intros Hc. unfold from_file. rewrite foldl_app. simpl. rewrite Hc.
  unfold set_header. by rewrite lookup_insert_eq.
Qed.

(** X19. Which header wins. A header is cut at its first colon, so that
    a value may hold colons. Of the [-H] flags the last one sets the value of
    its name; a line of the headers file sets it after all the flags, so the
    file overrides the command line, and of the lines the last one wins. *)
Lemma last_header_wins (args : HeaderArgs) (name value : string) :
  (has_colon name = false →
   split_header (name +:+ ":" +:+ value) = (strip name, strip value))
  ∧ (∀ earlier header,
       headers args = Some (earlier ++ [header]) →
       headers_file args = None →
       has_colon header = true →
       ∃ custom_headers,
         parse_custom_headers args (Lines []) = Some custom_headers
         ∧ custom_headers !! (split_header header).1 = Some (split_header header).2)
  ∧ (∀ file earlier line,
       headers_file args = Some file →
       file ≠ "" →
       is_header_line (strip line) = true →
       ∃ custom_headers,
         parse_custom_headers args (Lines (earlier ++ [line])) = Some custom_headers
         ∧ custom_headers !! (split_header (strip line)).1
           = Some (split_header (strip line)).2).
Proof.
  split_and!.
  - intros Hname. unfold split_header, strip.
    rewrite chars_of_append. simpl.
    rewrite split_once_found; [done|].
    unfold has_colon in Hname. by apply existsb_none.
  - intros earlier header Hflags Hfile Hc.
    unfold parse_custom_headers. rewrite Hflags, Hfile.
    eexists. split; [done|].
    destruct (earlier ++ [header]) as [|h hs] eqn:Heq.
    { by destruct earlier. }
    rewrite <- Heq. by apply from_flags_last.
  - intros file earlier line Hfile Hne Hc.
    unfold parse_custom_headers. rewrite Hfile.
    destruct file as [|c file]; [done|].
    eexists. split; [done|]. by apply from_file_last.
Qed.

End HeaderFacts.

(** * Verification: the insert statements *)

Section QueryFacts.
Import QueryBuilder.
Context {V : Type}.

Lemma identifier_char_plain (c : ascii) :
  is_identifier_char c = true → is_sql_punctuation c = false.
Proof. destruct c as [[] [] [] [] [] [] [] []]; vm_compute; intros; congruence. Qed.

Lemma identifier_start_char (c : ascii) :
  is_identifier_start c = true → is_identifier_char c = true.
Proof. destruct c as [[] [] [] [] [] [] [] []]; vm_compute; intros; congruence. Qed.

Lemma punctuation_question (c : ascii) :
  is_sql_punctuation c = false → Url.is_char "?" c = false.
Proof. destruct c as [[] [] [] [] [] [] [] []]; vm_compute; intros; congruence. Qed.

Lemma matches_identifier_chars (name : string) :
  matches_identifier name = true →
  name ≠ ""
  ∧ Forall (λ c, is_sql_punctuation c = false) (String.list_ascii_of_string name).
Proof.
  unfold matches_identifier. destruct name as [|c name]; [done|]. simpl.
  intros [Hc Hrest]%andb_true_iff. split; [done|].
  constructor; [by apply identifier_char_plain, identifier_start_char|].
  revert Hrest. generalize (String.list_ascii_of_string name). intros l.
  induction l as [|a l IH]; simpl; [done|].
  intros [Ha Hl]%andb_true_iff.
  constructor; [by apply identifier_char_plain|by apply IH].
Qed.

Lemma validate_identifier_cases (name : string) :
  (matches_identifier name = true ∧ _validate_identifier name = Returned name)
  ∨ (matches_identifier name = false ∧ ∃ e, _validate_identifier name = Raised e).
Proof.
  unfold _validate_identifier. destruct (matches_identifier name); [by left|].
  right. eauto.
Qed.

(** X20. [_validate_identifier] returns the name it was given or raises.
    A name it returns is not empty and holds no quote of any kind, no
    semicolon, no question mark, no comma, no dash and no equals sign. *)
Lemma validated_identifier_is_plain (name validated : string) :
  _validate_identifier name = Returned validated →
  validated = name
  ∧ name ≠ ""
  ∧ Forall (λ c, is_sql_punctuation c = false) (String.list_ascii_of_string name).
Proof.
  intros Hv.
  destruct (validate_identifier_cases name) as [[Hm Hr]|[_ [e He]]]; [|congruence].
  split; [congruence|]. by apply matches_identifier_chars.
Qed.

Lemma placeholders_append (s t : string) :
  placeholders (s +:+ t) = placeholders s + placeholders t.
Proof.
  unfold placeholders. by rewrite chars_of_append, filter_app, length_app.
Qed.

Lemma placeholders_plain (s : string) :
  Forall (λ c, is_sql_punctuation c = false) (String.list_ascii_of_string s) →
  placeholders s = 0.
Proof.
  unfold placeholders. intros Hs.
  induction Hs as [|c t Hc _ IH]; [done|].
  rewrite filter_cons_False; [done|].
  apply punctuation_question in Hc. by rewrite Hc.
Qed.

Lemma validate_all_returned (columns cols : list string) :
  validate_all columns = Returned cols →
  cols = columns
  ∧ Forall (λ col, placeholders col = 0) columns.
Proof.
  revert cols. induction columns as [|c rest IH]; intros cols; simpl.
  - intros [= <-]. done.
  - destruct (validate_identifier_cases c) as [[Hm ->]|[_ [e ->]]]; [|done].
    destruct (validate_all rest) as [cols'|e]; [|done].
    intros [= <-]. destruct (IH cols' eq_refl) as [-> Hrest].
    split; [done|]. constructor; [|done].
    by apply placeholders_plain, matches_identifier_chars.
Qed.

Lemma placeholders_join_columns (columns : list string) :
  Forall (λ col, placeholders col = 0) columns →
  placeholders (join ", " columns) = 0.
Proof.
  induction 1 as [|c rest Hc Hrest IH]; [done|].
  destruct rest as [|c' rest]; [done|].
  change (join ", " (c :: c' :: rest)) with (c +:+ ", " +:+ join ", " (c' :: rest)).
  rewrite !placeholders_append, Hc, IH. done.
Qed.

Lemma placeholders_join_marks (n : nat) :
  placeholders (join ", " (replicate n "?")) = n.
Proof.
  induction n as [|n IH]; [done|].
  destruct n as [|n]; [done|].
  change (join ", " (replicate (S (S n)) "?"))
    with ("?" +:+ ", " +:+ join ", " (replicate (S n) "?")).
  rewrite !placeholders_append, IH. done.
Qed.

Lemma placeholders_insert_text (on_conflict : option ConflictAction)
    (table : string) (cols : list string) (n : nat) :
  placeholders table = 0 →
  Forall (λ col, placeholders col = 0) cols →
  placeholders (insert_text on_conflict table cols (join ", " (replicate n "?"))) = n.
Proof.
  intros Ht Hcols. unfold insert_text.
  rewrite !placeholders_append, Ht, placeholders_join_columns,
    placeholders_join_marks by done.
  by destruct on_conflict as [[]|].
Qed.

Lemma insert_many_returned (table : string) (columns : list string)
    (data : list (list V)) (on_conflict : option ConflictAction)
    (query : string) (rows : list (list V)) :
  insert_many table columns data on_conflict = Returned (query, rows) →
  rows = data ∧ placeholders query = length columns.
Proof.
  unfold insert_many.
  destruct (validate_identifier_cases table) as [[Hm ->]|[_ [e ->]]]; [|done].
  destruct (validate_all columns) as [cols|e] eqn:Hcols; [|done].
  apply validate_all_returned in Hcols as [-> Hcols].
  intros [= <- <-]. split; [done|].
  apply placeholders_insert_text; [|done].
  by apply placeholders_plain, matches_identifier_chars.
Qed.

(** X21. The statement of [insert_many] has one placeholder for each
    column: when the call returns, the number of [?] in the text is the
    number of columns, no name it took having brought one, and the rows are
    the data as given, whatever their widths. *)
Lemma insert_many_is_parameterized (table : string) (columns : list string)
    (data : list (list V)) (on_conflict : option ConflictAction)
    (query : string) (rows : list (list V)) :
  insert_many table columns data on_conflict = Returned (query, rows) →
  rows = data ∧ placeholders query = length columns.
Proof. apply insert_many_returned. Qed.

(** X22. The statement of [insert] has as many placeholders as it has
    parameters: when the call returns, the parameters are the values of the
    dictionary in order, and the number of [?] in the text is their number. *)
Lemma insert_is_parameterized (table : string) (data : list (string * V))
    (on_conflict : option ConflictAction) (query : string) (params : list V) :
  insert table data on_conflict = Returned (query, params) →
  params = data.*2 ∧ placeholders query = length params.
Proof.
  unfold insert.
  destruct (validate_identifier_cases table) as [[Hm ->]|[_ [e ->]]]; [|done].
  destruct (validate_all data.*1) as [cols|e] eqn:Hcols; [|done].
  apply validate_all_returned in Hcols as [-> Hcols].
  intros [= <- <-]. split; [done|].
  apply placeholders_insert_text; [|done].
  by apply placeholders_plain, matches_identifier_chars.
Qed.

End QueryFacts.

(** X23. [log_url_batch] never fails to build its statement, and the
    statement fits its rows: for a batch that is not empty the builder
    returns, the text has ten placeholders, there is one row for each record
    of the batch, in order, and every row has ten values. *)
Lemma log_url_batch_rows_fit (session_id : Z) (urls : list BufferHandler.Record_) :
  urls ≠ [] →
  ∃ query rows,
    QueryBuilder.log_url_batch_statement session_id urls = Some (Returned (query, rows))
    ∧ rows = (QueryBuilder.url_row session_id <$> urls)
    ∧ QueryBuilder.placeholders query = 10
    ∧ Forall (λ row, length row = QueryBuilder.placeholders query) rows.
Proof.
  intros Hne. unfold QueryBuilder.log_url_batch_statement.
  destruct urls as [|r urls]; [done|].
  destruct (QueryBuilder.insert_many "crawled_urls" QueryBuilder.url_columns
              (QueryBuilder.url_row session_id <$> r :: urls)
              (Some QueryBuilder.IGNORE)) as [[query rows]|e] eqn:Hq;
    [|by vm_compute in Hq].
  pose proof (insert_many_returned _ _ _ _ _ _ Hq) as [-> Hp].
  exists query, (QueryBuilder.url_row session_id <$> r :: urls).
  split_and!; [done..|].
  rewrite Hp. apply Forall_fmap, Forall_forall. intros [] _; done.
Qed.

(** * The theorems at work *)

Lemma records_counted_once_witness :
  HandlerRun.accounted
    (HandlerRun.apply_calls (H := BufferHandler.storing_sink)
       HandlerRun.some_calls HandlerRun.storing_handler)
  = HandlerRun.accounted HandlerRun.storing_handler + 3.
Proof.
  apply (records_counted_once (H := BufferHandler.storing_sink)
           HandlerRun.some_calls HandlerRun.storing_handler).
  split; intros; eexists _, _; reflexivity.
Defined.

Lemma mirror_holds_a_prefix_witness :
  HandlerRun.mirror_is_prefix
    (HandlerRun.apply_calls (H := BufferHandler.failing_sink)
       [HandlerRun.Append BufferHandler.WriteOk BufferHandler.a_record;
        HandlerRun.Append BufferHandler.OpenRaises HandlerRun.a_subdomain;
        HandlerRun.Flush false]
       BufferHandler.fresh_handler).
Proof.
  apply (mirror_holds_a_prefix (H := BufferHandler.failing_sink)).
  - repeat constructor.
  - exact I.
Defined.

Lemma final_flush_delivers_witness :
  ∃ h', BufferHandler.final_flush (H := BufferHandler.storing_sink) true true
          HandlerRun.loaded_handler = (h', Returned 2)
        ∧ BufferHandler.buffer h' = []
        ∧ BufferHandler.buffer_file h' = BufferHandler.Absent
        ∧ BufferHandler.total_flushed h' = 2.
Proof.
  apply (final_flush_delivers (H := BufferHandler.storing_sink) true
           HandlerRun.loaded_handler).
  - split; intros; eexists _, _; reflexivity.
  - left. reflexivity.
Defined.

Lemma discoveries_are_kept_witness :
  let c :=
    Engine.run (H := BufferHandler.failing_sink) last_label_extract
      Engine.never_matches Engine.join_absolute Engine.args_depth_1 Engine.a_test
      [Engine.Complete 0 BufferHandler.WriteOk BufferHandler.WriteOk
         (Engine.Got Engine.home_page); Engine.Gathered]
      Engine.interrupted_in_flight in
  Engine.visited_urls (Engine.shared Engine.interrupted_in_flight)
    ⊆ Engine.visited_urls (Engine.shared c)
  ∧ Engine.shutdown_flag (Engine.shared c) = true.
Proof.
  destruct (discoveries_are_kept (H := BufferHandler.failing_sink) last_label_extract
              Engine.never_matches Engine.join_absolute Engine.args_depth_1
              Engine.a_test
              [Engine.Complete 0 BufferHandler.WriteOk BufferHandler.WriteOk
                 (Engine.Got Engine.home_page); Engine.Gathered]
              Engine.interrupted_in_flight) as (Hv & _ & _ & Hf).
  split; [exact Hv|]. apply Hf. reflexivity.
Defined.

Lemma each_url_fetched_once_witness :
  let c :=
    Engine.run (H := BufferHandler.failing_sink) last_label_extract
      Engine.never_matches Engine.join_absolute Engine.args_depth_1 Engine.a_test
      Session.links_in_flight
      (Engine.start (Some BufferHandler.fresh_handler) Engine.a_test) in
  Session.in_flight c = ["https://a.test/a"; "https://a.test/b"]
  ∧ NoDup (Session.in_flight c)
  ∧ size (Engine.visited_urls (Engine.shared c)) = 1 + 2.
Proof.
  destruct (each_url_fetched_once (H := BufferHandler.failing_sink) last_label_extract
              Engine.never_matches Engine.join_absolute Engine.args_depth_1
              Engine.a_test (Some BufferHandler.fresh_handler)
              Session.links_in_flight) as (Hnd & _ & Hsize).
  split; [reflexivity|]. split; [exact Hnd|exact Hsize].
Defined.




Lemma completed_means_exhausted_witness :
  let c :=
    Engine.run (H := BufferHandler.failing_sink) last_label_extract
      Engine.never_matches Engine.join_absolute Engine.args_depth_1 Engine.a_test
      Session.whole_session
      (Engine.start (Some BufferHandler.fresh_handler) Engine.a_test) in
  Engine.session_status c = "completed"
  ∧ Session.in_flight c = []
  ∧ Engine.urls_to_visit c = []
  ∧ size (Engine.visited_urls (Engine.shared c)) = Engine.pbar (Engine.shared c).
Proof.
  intros c.
  destruct (completed_means_exhausted (H := BufferHandler.failing_sink)
              last_label_extract Engine.never_matches Engine.join_absolute
              Engine.args_depth_1 Engine.a_test (Some BufferHandler.fresh_handler)
              Session.whole_session) as (Hfin & Hstatus).
  fold c in Hfin, Hstatus.
  assert (Hover : Engine.finished c = true) by (vm_compute; reflexivity).
  assert (Hquiet : Engine.Sigint ∉ Session.whole_session).
  { unfold Session.whole_session.
    repeat (apply not_elem_of_cons; split; [discriminate|]). apply not_elem_of_nil. }
  destruct (Hfin Hover) as (Hnone & Hdone).
  destruct (Hdone (Hstatus Hquiet)) as (Hfrontier & Hsize).
  split; [exact (Hstatus Hquiet)|]. split; [exact Hnone|]. split; [exact Hfrontier|exact Hsize].
Defined.

Lemma no_workers_no_progress_witness :
  Engine.run (H := BufferHandler.failing_sink) last_label_extract
    Engine.never_matches Engine.join_absolute Session.no_workers Engine.a_test
    (Session.rounds 3) (Engine.start (Some BufferHandler.fresh_handler) Engine.a_test)
  = Engine.start (Some BufferHandler.fresh_handler) Engine.a_test.
Proof.
  apply (no_workers_no_progress (H := BufferHandler.failing_sink) last_label_extract
           Engine.never_matches Engine.join_absolute Session.no_workers Engine.a_test
           (Engine.start (Some BufferHandler.fresh_handler) Engine.a_test) 3);
    [reflexivity|reflexivity|reflexivity|discriminate|reflexivity].
Defined.

Lemma json_walk_of_members_witness :
  extract_urls_from_json Engine.join_absolute
    (JList
       [JDict [("next", JString "/page2");
               ("meta", JDict [("self", JString "https://a.test/x");
                               ("count", JNumber 3)])];
        JDict [("next", JString "no url")]])
    Engine.a_test
  = ["/page2"; "https://a.test/x"].
Proof.
  rewrite (json_walk_of_members Engine.join_absolute); reflexivity.
Defined.

Lemma scope_is_the_registered_domain_witness :
  Session.children_of last_label_extract Engine.never_matches Engine.args_depth_1
    "https://a.test" 0 ["https://api.a.test/v1"; "https://b.test/"]
  = Session.children_of last_label_extract Engine.never_matches Engine.args_depth_1
      "https://www.a.test/home" 0 ["https://api.a.test/v1"; "https://b.test/"].
Proof.
  destruct (scope_is_the_registered_domain last_label_extract Engine.never_matches
              Engine.args_depth_1 "https://a.test" "https://www.a.test/home" 0
              ["https://api.a.test/v1"; "https://b.test/"]) as (_ & _ & _ & Hsame).
  apply Hsame. reflexivity.
Defined.

Lemma bare_host_is_not_excluded_witness :
  should_exclude last_label_extract (λ _ _, true) "https://www.a.test/admin"
    None (Some "www") = false.
Proof.
  apply (bare_host_is_not_excluded last_label_extract (λ _ _, true)
           "https://www.a.test/admin" None (Some "www")).
  right. reflexivity.
Defined.

Lemma custom_headers_are_stripped_witness :
  Headers.strip "X-Token" = "X-Token"
  ∧ Headers.strip "a:b" = "a:b"
  ∧ Headers.has_colon "X-Token" = false.
Proof.
  apply (custom_headers_are_stripped
           (Headers.mkHeaderArgs (Some [" X-Token :  a:b "; "no colon"]) None)
           (Headers.Lines []) {["X-Token" := "a:b"]} "X-Token" "a:b").
  - vm_compute. reflexivity.
  - reflexivity.
Defined.

Lemma last_header_wins_witness :
  ∃ custom_headers,
    Headers.parse_custom_headers
      (Headers.mkHeaderArgs (Some ["X-A: 1"; "X-A: 2"]) (Some "headers.txt"))
      (Headers.Lines ([] ++ [" X-A : 3 "])) = Some custom_headers
    ∧ custom_headers !! "X-A" = Some "3".
Proof.
  destruct (last_header_wins
              (Headers.mkHeaderArgs (Some ["X-A: 1"; "X-A: 2"]) (Some "headers.txt"))
              "X-A" "3") as (_ & _ & Hfile).
  apply (Hfile "headers.txt" [] " X-A : 3 "); [reflexivity|discriminate|reflexivity].
Defined.

Lemma validated_identifier_is_plain_witness :
  "crawled_urls" = "crawled_urls"
  ∧ "crawled_urls" ≠ ""
  ∧ Forall (λ c, QueryBuilder.is_sql_punctuation c = false)
      (String.list_ascii_of_string "crawled_urls").
Proof.
  apply (validated_identifier_is_plain "crawled_urls" "crawled_urls"). reflexivity.
Defined.

Lemma insert_many_is_parameterized_witness :
  [[1; 2]; [3]] = [[1; 2]; [3]]
  ∧ QueryBuilder.placeholders
      "INSERT OR IGNORE INTO crawled_urls (url, depth) VALUES (?, ?)" = 2.
Proof.
  apply (insert_many_is_parameterized (V := nat) "crawled_urls" ["url"; "depth"]
           [[1; 2]; [3]] (Some QueryBuilder.IGNORE)).
  reflexivity.
Defined.

Lemma insert_is_parameterized_witness :
  [1; 2] = [("base_url", 1); ("max_depth", 2)].*2
  ∧ QueryBuilder.placeholders
      "INSERT INTO sessions (base_url, max_depth) VALUES (?, ?)" = 2.
Proof.
  apply (insert_is_parameterized (V := nat) "sessions"
           [("base_url", 1); ("max_depth", 2)] None).
  reflexivity.
Defined.

Lemma log_url_batch_rows_fit_witness :
  ∃ query rows,
    QueryBuilder.log_url_batch_statement 7 [BufferHandler.a_record]
    = Some (Returned (query, rows))
    ∧ rows = (QueryBuilder.url_row 7 <$> [BufferHandler.a_record])
    ∧ QueryBuilder.placeholders query = 10
    ∧ Forall (λ row, length row = QueryBuilder.placeholders query) rows.
Proof.
  apply (log_url_batch_rows_fit 7 [BufferHandler.a_record]). discriminate.
Defined.
